(** * note-site: the publish pipeline, verified against its scripts

    Three programs of the repository are embedded here:

    - [scripts/auto-sync-deploy.sh], the orchestrator
      (sync, build, diff, commit, push), in [Module Orchestrator];
    - [scripts/run-bear-export.sh], the exporter adapter followed by
      the asset relay, in [Module Exporter];
    - the Bear callback server (a Node script), in [Module Listener].

    The shell scripts run under [set -euo pipefail]; external tools
    (npm, git, python3) are an environment the scripts talk to, and are
    kept abstract: an executor answers each command with an exit status.
    Tools whose effect the scripts rely on ([mkdir -p], [rsync -r],
    [date +FMT], [test -d], [test -f]) are modelled on a small file
    system and a clock. *)

From Stdlib Require Import String Ascii List Arith Lia Bool.
From stdpp Require Import gmap strings list fin_maps.
Import ListNotations.

Local Open Scope string_scope.
Local Open Scope list_scope.
Local Open Scope stdpp_scope.

(** ** Clock readings and decimal fields

    Both [date +"%Y-%m-%d %H:%M:%S"] and JavaScript's
    [Date.prototype.toISOString] print a broken-down calendar time as
    zero-padded decimal fields. *)

Record civil_time := CivilTime {
  year : nat; month : nat; day : nat;
  hour : nat; minute : nat; second : nat; millis : nat
}.

#[global] Instance civil_time_eq_dec : EqDecision civil_time.
Proof. solve_decision. Defined.

Definition digit (n : nat) : ascii := ascii_of_nat (48 + n mod 10).

(** [digits w n]: the [w] low decimal digits of [n], most significant
    first; for [n < 10 ^ w] this is [n] zero-padded to width [w]. *)
Fixpoint digits (w n : nat) : string :=
  match w with
  | 0 => ""
  | S w' => String (digit (n / 10 ^ w')) (digits w' n)
  end.

(** The time is a calendar time whose fields fit their printed width
    (years 0000 to 9999). *)
Definition well_formed_time (t : civil_time) : Prop :=
  year t < 100 * 100 ∧ month t < 100 ∧ day t < 100 ∧ hour t < 100 ∧
  minute t < 100 ∧ second t < 100 ∧ millis t < 1000.

#[global] Instance well_formed_time_dec (t : civil_time) :
  Decision (well_formed_time t).
Proof. unfold well_formed_time. apply _. Defined.

(** [strftime], for the conversions the script uses; any other
    character of the format is copied. *)
Definition conversion (c : ascii) (t : civil_time) : string :=
  if Ascii.eqb c "Y" then digits 4 (year t)
  else if Ascii.eqb c "m" then digits 2 (month t)
  else if Ascii.eqb c "d" then digits 2 (day t)
  else if Ascii.eqb c "H" then digits 2 (hour t)
  else if Ascii.eqb c "M" then digits 2 (minute t)
  else if Ascii.eqb c "S" then digits 2 (second t)
  else String "%" (String c "").

Fixpoint strftime (fmt : string) (t : civil_time) : string :=
  match fmt with
  | "" => ""
  | String "%" (String c rest) => conversion c t +:+ strftime rest t
  | String c rest => String c (strftime rest t)
  end.

(** Does [s] occur in [t] as a contiguous substring? *)
Fixpoint contains (s t : string) : bool :=
  String.prefix s t ||
  match t with
  | "" => false
  | String _ t' => contains s t'
  end.

(** * Shell scripts under [set -e]

    A script is a state transformer over the world it runs in; it
    either goes on with a value or ends with an exit status, and it
    leaves a trace of events. *)

Module Shell.

Inductive stream := Stdout | Stderr.

#[global] Instance stream_eq_dec : EqDecision stream.
Proof. solve_decision. Defined.

(** The shell's reading of a status: 0 is success. *)
Definition succeeded (status : nat) : bool := Nat.eqb status 0.

Inductive res (A : Type) :=
| Next (a : A)
| Exit (code : nat).
Arguments Next {A} a.
Arguments Exit {A} code.

Definition sh (World Event A : Type) : Type :=
  World → res A * World * list Event.

#[global] Instance sh_ret {World Event} : MRet (sh World Event) :=
  λ A a w, (Next a, w, []).

#[global] Instance sh_bind {World Event} : MBind (sh World Event) :=
  λ A B k m w,
    match m w with
    | (Next a, w1, t1) =>
        let '(r, w2, t2) := k a w1 in (r, w2, t1 ++ t2)
    | (Exit n, w1, t1) => (Exit n, w1, t1)
    end.

Definition exit {World Event A} (code : nat) : sh World Event A :=
  λ w, (Exit code, w, []).

Definition emit {World Event} (e : Event) : sh World Event unit :=
  λ w, (Next tt, w, [e]).

Record run_result (World Event : Type) := RunResult {
  exit_code : nat;
  final_world : World;
  trace : list Event
}.
Arguments RunResult {World Event} _ _ _.
Arguments exit_code {World Event} _.
Arguments final_world {World Event} _.
Arguments trace {World Event} _.

(** One invocation of a script; falling off the end is status 0, that
    of the last command. *)
Definition invoke {World Event} (script : sh World Event unit) (w : World)
  : run_result World Event :=
  match script w with
  | (Next _, w', t) => RunResult 0 w' t
  | (Exit n, w', t) => RunResult n w' t
  end.

End Shell.

(** * The orchestrator: [scripts/auto-sync-deploy.sh] *)

Module Orchestrator.
Export Shell.

(** The external commands of the script, by line. *)
Inductive command :=
| ResolveRootDir                  (* line 4: $(cd "$(dirname ...)/.." && pwd) *)
| CdRootDir                       (* line 5: cd "$ROOT_DIR" *)
| NpmRun (script : string)        (* lines 12, 20: npm run <script> --silent *)
| CdRootParent                    (* line 27: cd "$ROOT_DIR/.." *)
| GitDiffQuiet (pathspec : string)(* line 30: git diff --quiet -- docs *)
| GitAdd (pathspec : string)      (* line 39 *)
| GitCommit (msg : string)        (* line 40: git commit -m "$COMMIT_MSG" *)
| GitPush.                        (* line 48 *)

#[global] Instance command_eq_dec : EqDecision command.
Proof. solve_decision. Defined.

(** What a run leaves behind, in order: every external command with
    the status it returned, every reading of the clock by [date], a
    [date] that failed where its status counts (line 35), and every
    line the script itself echoes. *)
Inductive event :=
| Ran (c : command) (status : nat)
| Date (t : civil_time)
| DateFailed (status : nat)
| Echo (fd : stream) (line : string).

#[global] Instance event_eq_dec : EqDecision event.
Proof. solve_decision. Defined.

(** The environment: how each command answers in a given world (exit
    status, world afterwards), what the clock shows, how [date]
    without a format prints it, and the status [date] itself returns
    (not 0 when, say, it is not on the PATH). *)
Record Executor (World : Type) := {
  exec : command → World → nat * World;
  clock : World → civil_time;
  date_default : civil_time → string;
  date_status : World → nat
}.
Arguments exec {World} _ _ _.
Arguments clock {World} _ _.
Arguments date_default {World} _ _.
Arguments date_status {World} _ _.

Section Script.
Context {World : Type} (E : Executor World).

Definition echo (fd : stream) (line : string) : sh World event unit :=
  emit (Echo fd line).

(** A command whose status is inspected ([if cmd; then ...]). *)
Definition run (c : command) : sh World event nat := λ w,
  let '(st, w') := exec E c w in (Next st, w', [Ran c st]).

(** A simple command under [set -e]: a non-zero status ends the
    script with that status. *)
Definition errexit (c : command) : sh World event unit :=
  st ← run c;
  if succeeded st then mret tt else exit st.

(** Line 9, [echo "... $(date)"]: the substitution is an argument of
    [echo], whose status is the one [set -e] looks at, so the status of
    [date] is lost and the script goes on. *)
Definition date : sh World event string := λ w,
  (Next (date_default E (clock E w)), w, [Date (clock E w)]).

(** Line 35, [COMMIT_MSG="... $(date +FMT)"]: the status of an
    assignment is that of its command substitution, so under [set -e]
    a failing [date] ends the script with its status. *)
Definition date_fmt (fmt : string) : sh World event string := λ w,
  if succeeded (date_status E w)
  then (Next (strftime fmt (clock E w)), w, [Date (clock E w)])
  else (Exit (date_status E w), w, [DateFailed (date_status E w)]).

Definition LOG_PREFIX : string := "[auto-sync]".

Definition auto_sync_deploy : sh World event unit :=
  errexit ResolveRootDir;;
  errexit CdRootDir;;
  now ← date;
  echo Stdout (LOG_PREFIX +:+ " Starting at " +:+ now);;
  (* 1) Sync Bear notes *)
  sync ← run (NpmRun "sync-bear");
  (if succeeded sync then echo Stdout (LOG_PREFIX +:+ " sync-bear ok")
   else echo Stderr (LOG_PREFIX +:+ " sync-bear FAILED") ;; exit 1);;
  (* 2) Build Astro into ../docs *)
  build ← run (NpmRun "build");
  (if succeeded build then echo Stdout (LOG_PREFIX +:+ " build ok")
   else echo Stderr (LOG_PREFIX +:+ " build FAILED") ;; exit 1);;
  errexit CdRootParent;;
  (* 3) Commit docs if there are changes *)
  diff ← run (GitDiffQuiet "docs");
  (if succeeded diff
   then echo Stdout (LOG_PREFIX +:+ " no changes in docs, nothing to commit");;
        exit 0
   else mret tt);;
  stamp ← date_fmt "%Y-%m-%d %H:%M:%S";
  let COMMIT_MSG := "Auto update notes " +:+ stamp in
  echo Stdout (LOG_PREFIX +:+ " committing: " +:+ COMMIT_MSG);;
  errexit (GitAdd "docs");;
  commit ← run (GitCommit COMMIT_MSG);
  (if succeeded commit then echo Stdout (LOG_PREFIX +:+ " commit ok")
   else echo Stderr (LOG_PREFIX +:+ " git commit failed") ;; exit 1);;
  (* 4) Push *)
  push ← run GitPush;
  (if succeeded push then echo Stdout (LOG_PREFIX +:+ " push ok")
   else echo Stderr (LOG_PREFIX +:+ " git push failed") ;; exit 1);;
  echo Stdout (LOG_PREFIX +:+ " done").

Definition pipeline (w : World) : run_result World event :=
  invoke auto_sync_deploy w.

End Script.

(** ** Reading a trace *)

(** The statuses returned by the invocations of [c], in order. *)
Definition ran (c : command) (tr : list event) : list nat :=
  omap (λ e, match e with
             | Ran c' st => if decide (c' = c) then Some st else None
             | _ => None
             end) tr.

(** The [git commit] invocations: message and status, in order. *)
Definition commits (tr : list event) : list (string * nat) :=
  omap (λ e, match e with
             | Ran (GitCommit msg) st => Some (msg, st)
             | _ => None
             end) tr.

(** Some line echoed on [fd] has [text] in it. *)
Definition logged (fd : stream) (text : string) (tr : list event) : Prop :=
  ∃ line, Echo fd line ∈ tr ∧ contains text line = true.

(** A stage failed: its command ran and returned a non-zero status. *)
Definition failed (c : command) (tr : list event) : Prop :=
  ∃ st, st ≠ 0 ∧ Ran c st ∈ tr.

(** [YYYY-MM-DD HH:MM:SS] *)
Definition YmdHMS (t : civil_time) : string :=
  digits 4 (year t) +:+ "-" +:+ (digits 2 (month t) +:+ "-" +:+
  (digits 2 (day t) +:+ " " +:+ (digits 2 (hour t) +:+ ":" +:+
  (digits 2 (minute t) +:+ ":" +:+ digits 2 (second t))))).

(** ** Executors to run the script against *)

(** A scripted executor: every command answers with a fixed status and
    the clock stands still. *)
Definition scripted (answer : command → nat) (t : civil_time) : Executor unit :=
  {| exec := λ c w, (answer c, w);
     clock := λ _, t;
     date_default := λ _, "Sun Nov  1 09:30:05 JST 2026";
     date_status := λ _, 0 |}.

Definition a_sunday : civil_time := CivilTime 2026 11 1 9 30 5 0.

(** Answers for particular runs: everything succeeds and docs differ;
    the export fails; the build fails; [git add] cannot take the index
    lock. *)
Definition docs_changed (c : command) : nat :=
  match c with GitDiffQuiet _ => 1 | _ => 0 end.

Definition sync_fails (c : command) : nat :=
  match c with
  | NpmRun script => if String.eqb script "sync-bear" then 1 else 0
  | c => docs_changed c
  end.

Definition build_fails (c : command) : nat :=
  match c with
  | NpmRun script => if String.eqb script "build" then 1 else 0
  | c => docs_changed c
  end.

Definition add_fails (c : command) : nat :=
  match c with GitAdd _ => 128 | c => docs_changed c end.

(** A reference repository: notes are exported to the content
    directory, the site is rendered from the content into [docs], and
    git compares, stages and records [docs]. *)
Record repo := Repo {
  notes : string;                   (* the tagged notes in Bear *)
  content : string;                 (* src/content/notes *)
  docs : string;                    (* the build output, working tree *)
  staged : string;                  (* docs in the index *)
  history : list (string * string); (* commits: message, docs tree *)
  pushed : nat;                     (* commits known to the remote *)
  wall_clock : civil_time
}.

Definition head_tree (r : repo) : string :=
  match history r with
  | [] => ""
  | (_, tree) :: _ => tree
  end.

Section Reference.
(** The exporter and the builder, as functions of what they read. *)
Context (export render : string → string).

Definition reference_exec (c : command) (r : repo) : nat * repo :=
  match c with
  | ResolveRootDir | CdRootDir | CdRootParent => (0, r)
  | NpmRun script =>
      if String.eqb script "sync-bear" then
        (0, Repo (notes r) (export (notes r)) (docs r) (staged r) (history r)
                 (pushed r) (wall_clock r))
      else if String.eqb script "build" then
        (0, Repo (notes r) (content r) (render (content r)) (staged r)
                 (history r) (pushed r) (wall_clock r))
      else (1, r)
  | GitDiffQuiet _ =>
      (if String.eqb (docs r) (staged r) then 0 else 1, r)
  | GitAdd _ =>
      (0, Repo (notes r) (content r) (docs r) (docs r) (history r)
               (pushed r) (wall_clock r))
  | GitCommit msg =>
      if String.eqb (staged r) (head_tree r) then (1, r)
      else (0, Repo (notes r) (content r) (docs r) (staged r)
                    ((msg, staged r) :: history r) (pushed r) (wall_clock r))
  | GitPush =>
      (0, Repo (notes r) (content r) (docs r) (staged r) (history r)
               (length (history r)) (wall_clock r))
  end.

Definition reference : Executor repo :=
  {| exec := reference_exec;
     clock := wall_clock;
     date_default := λ _, "Sun Nov  1 09:30:05 JST 2026";
     date_status := λ _, 0 |}.
End Reference.

(** A concrete site: notes are exported as they are and rendered into
    one page. *)
Definition one_page : Executor repo :=
  reference (λ n, n) (λ c, "<html>" +:+ c).

Definition fresh_repo (n : string) : repo :=
  Repo n "" "" "" [] 0 a_sunday.

Definition after_first_run : repo :=
  final_world (pipeline one_page (fresh_repo "# hello")).

End Orchestrator.

(** * The exporter adapter and the asset relay:
      [scripts/run-bear-export.sh] *)

Module Exporter.
Export Shell.

(** ** A file system: paths to regular files and directories

    A path is the list of its components below the root; the root
    itself always exists. *)

Inductive node :=
| File (bytes : string)
| Dir.

#[global] Instance node_eq_dec : EqDecision node.
Proof. solve_decision. Defined.

Abbreviation path := (list string).
Abbreviation FS := (gmap (list string) node).

Definition parent (p : path) : path := removelast p.

(** [pwd]'s spelling of a path. *)
Definition show (p : path) : string :=
  match p with
  | [] => "/"
  | _ => String.concat "" (map (λ c, "/" +:+ c) p)
  end.

(** [relative base p]: [p] below [base], if it is there. *)
Fixpoint relative (base p : path) : option path :=
  match base, p with
  | [], _ => Some p
  | b :: base', c :: p' => if decide (b = c) then relative base' p' else None
  | _ :: _, [] => None
  end.

(** [p] strictly below [base]. *)
Definition inside (base p : path) : option path :=
  match relative base p with
  | Some (c :: rel) => Some (c :: rel)
  | _ => None
  end.

(** [test -d] and [test -f]. *)
Definition test_d (fs : FS) (p : path) : bool :=
  match p with
  | [] => true
  | _ => bool_decide (fs !! p = Some Dir)
  end.

Definition test_f (fs : FS) (p : path) : bool :=
  match fs !! p with
  | Some (File _) => true
  | _ => false
  end.

(** [mkdir -p]: every component in turn, from [base] down; a regular
    file in the way is an error, and what was made before it stays. *)
Fixpoint mkdir_from (base rest : path) (fs : FS) : bool * FS :=
  match rest with
  | [] => (true, fs)
  | c :: rest' =>
      match fs !! (base ++ [c]) with
      | Some (File _) => (false, fs)
      | _ => mkdir_from (base ++ [c]) rest' (<[base ++ [c] := Dir]> fs)
      end
  end.

(** [mkdir -p p1 p2 ...]: every operand is tried; the status is 1 if
    one of them failed. *)
Fixpoint mkdir_p (ps : list path) (fs : FS) : nat * FS :=
  match ps with
  | [] => (0, fs)
  | p :: ps' =>
      let '(ok, fs1) := mkdir_from [] p fs in
      let '(st, fs2) := mkdir_p ps' fs1 in
      (if ok then st else 1, fs2)
  end.

(** ** [rsync -r SRC/ DST/]

    Without [--delete]: every entry below [SRC] is brought to the same
    relative path below [DST].  A directory entry becomes a directory
    (a regular file in its way is replaced); a regular file is written
    over a regular file or an empty directory of that name, but a
    directory with something in it blocks the file, which is then
    skipped and reported with status 23.  Without [--checksum] or
    [--ignore-times], a regular file is not transferred at all where
    the quick check finds the destination up to date.  Nothing else
    changes. *)

(** A directory with something in it. *)
Definition occupied (fs : FS) (p : path) : bool :=
  bool_decide (fs !! p = Some Dir) &&
  bool_decide (map_Exists (λ q _, is_Some (inside p q)) fs).

Definition blocked (fs : FS) (src dst p : path) (n : node) : bool :=
  match n, inside src p with
  | File _, Some rel => occupied fs (dst ++ rel)
  | _, _ => false
  end.

(** The quick check: a regular file counts as up to date where the
    destination is a regular file of the same size and the same
    modification time, whatever its bytes.  The file system records
    bytes, not times: [same_mtime from to] is the comparison of the two
    modification times, as rsync finds them when it runs. *)
Definition quick_check (same_mtime : path → path → bool) (fs : FS)
    (from to : path) (n : node) : bool :=
  match n, fs !! to with
  | File bytes, Some (File old) =>
      (String.length bytes =? String.length old)%nat && same_mtime from to
  | _, _ => false
  end.

Definition transfer (same_mtime : path → path → bool) (fs : FS)
    (src dst p : path) (n : node) (acc : FS) : FS :=
  match inside src p with
  | Some rel =>
      if blocked fs src dst p n || quick_check same_mtime fs p (dst ++ rel) n
      then acc else <[dst ++ rel := n]> acc
  | None => acc
  end.

Definition rsync_r (same_mtime : path → path → bool) (src dst : path) (fs : FS)
  : nat * FS :=
  if negb (test_d fs src) then (23, fs)          (* no such directory *)
  else if test_f fs dst then (3, fs)             (* destination is a file *)
  else if negb (test_d fs dst || test_d fs (parent dst)) then (11, fs)
  else
    (if bool_decide (map_Forall (λ p n, blocked fs src dst p n = false) fs)
     then 0 else 23,
     map_fold (transfer same_mtime fs src dst) (<[dst := Dir]> fs) fs).

(** ** The script *)

Inductive event :=
| Mkdir (dirs : list path) (status : nat)
| TestF (p : path) (holds : bool)
| TestD (p : path) (holds : bool)
| Python3 (script out backup : path) (status : nat)
| Rsync (src dst : path) (status : nat)
| Echo (fd : stream) (line : string).

#[global] Instance event_eq_dec : EqDecision event.
Proof. solve_decision. Defined.

Section Script.
(** [ROOT_DIR] is the directory above the script's own, as line 4
    resolves it; [python3 script out backup] is what running
    [python3 script --out out --backup backup] does to the file system
    and the status it returns; [same_mtime] is what rsync's quick check
    finds when it compares modification times. *)
Context (ROOT_DIR : path) (python3 : path → path → path → FS → nat * FS)
  (same_mtime : path → path → bool).

Definition EXPORT_SCRIPT : path :=
  parent ROOT_DIR ++ ["Bear-Markdown-Export"; "bear_export_sync.py"].
Definition OUT_DIR : path := ROOT_DIR ++ ["src"; "content"; "notes"].
Definition BACKUP_DIR : path := ROOT_DIR ++ ["bear-sync-backup"].
Definition PUBLIC_DIR : path := ROOT_DIR ++ ["public"].

(** The script's own spelling of [$EXPORT_SCRIPT]. *)
Definition EXPORT_SCRIPT_text : string :=
  show ROOT_DIR +:+ "/../Bear-Markdown-Export/bear_export_sync.py".

Definition echo (fd : stream) (line : string) : sh FS event unit :=
  emit (Echo fd line).

Definition test_file (p : path) : sh FS event bool := λ fs,
  (Next (test_f fs p), fs, [TestF p (test_f fs p)]).

Definition test_directory (p : path) : sh FS event bool := λ fs,
  (Next (test_d fs p), fs, [TestD p (test_d fs p)]).

(** A simple command under [set -e]: a non-zero status ends the
    script with that status. *)
Definition errexit (st : nat) : res unit :=
  if succeeded st then Next tt else Exit st.

Definition mkdir (dirs : list path) : sh FS event unit := λ fs,
  let '(st, fs') := mkdir_p dirs fs in
  (errexit st, fs', [Mkdir dirs st]).

Definition run_python3 (script out backup : path) : sh FS event unit := λ fs,
  let '(st, fs') := python3 script out backup fs in
  (errexit st, fs', [Python3 script out backup st]).

Definition rsync (src dst : path) : sh FS event unit := λ fs,
  let '(st, fs') := rsync_r same_mtime src dst fs in
  (errexit st, fs', [Rsync src dst st]).

(** Lines 19 to 23: sync BearImages (if any) into public/BearImages. *)
Definition asset_relay : sh FS event unit :=
  images ← test_directory (OUT_DIR ++ ["BearImages"]);
  if images : bool then
    mkdir [PUBLIC_DIR ++ ["BearImages"]];;
    rsync (OUT_DIR ++ ["BearImages"]) (PUBLIC_DIR ++ ["BearImages"])
  else (mret tt : sh FS event unit).

Definition run_bear_export : sh FS event unit :=
  mkdir [OUT_DIR; BACKUP_DIR; PUBLIC_DIR];;
  found ← test_file EXPORT_SCRIPT;
  (if negb found then
     echo Stderr ("bear_export_sync.py not found at " +:+ EXPORT_SCRIPT_text);;
     exit 1
   else mret tt);;
  run_python3 EXPORT_SCRIPT OUT_DIR BACKUP_DIR;;
  asset_relay.

End Script.

(** ** Worlds to run the script in *)

Definition site : path := ["Users"; "khanhnguyen"; "clawd"; "note-site"].

(** An exporter that writes one note and one image. *)
Definition writes_an_image (script out backup : path) (fs : FS) : nat * FS :=
  (0, <[out ++ ["BearImages"; "a.png"] := File "PNG-bytes"]>
      (<[out ++ ["BearImages"] := Dir]>
      (<[out ++ ["hello.md"] := File "# hello"]> fs))).

(** An exporter that finds nothing to export. *)
Definition writes_nothing (script out backup : path) (fs : FS) : nat * FS :=
  (0, fs).

(** An exporter that crashes. *)
Definition crashes (script out backup : path) (fs : FS) : nat * FS :=
  (2, fs).

(** The clone as checked out: the exporter is there, [public] is not. *)
Definition checkout : FS :=
  {[ ["Users"] := Dir;
     ["Users"; "khanhnguyen"] := Dir;
     ["Users"; "khanhnguyen"; "clawd"] := Dir;
     ["Users"; "khanhnguyen"; "clawd"; "Bear-Markdown-Export"] := Dir;
     ["Users"; "khanhnguyen"; "clawd"; "Bear-Markdown-Export";
      "bear_export_sync.py"] := File "#!/usr/bin/env python3";
     site := Dir ]}.

(** After an export that wrote an image. *)
Definition exported : FS :=
  (writes_an_image (EXPORT_SCRIPT site) (OUT_DIR site) (BACKUP_DIR site)
     (mkdir_p [OUT_DIR site; BACKUP_DIR site; PUBLIC_DIR site] checkout).2).2.

(** What the quick check can find: the times always differ (the usual
    case, a transfer without [--times] stamps the copy with the time of
    the transfer), or they are the same. *)
Definition times_differ (from to : path) : bool := false.
Definition times_agree (from to : path) : bool := true.

(** After the same export, with an older image of the same size and
    the same modification time already published under that name. *)
Definition stale_image : FS :=
  <[PUBLIC_DIR site ++ ["BearImages"; "a.png"] := File "OLD-bytes"]>
    (<[PUBLIC_DIR site ++ ["BearImages"] := Dir]> exported).

(** After the same export, with a directory that is not empty
    published under the name of the image. *)
Definition image_name_taken : FS :=
  <[PUBLIC_DIR site ++ ["BearImages"; "a.png"; "thumb.png"] := File "thumb"]>
    (<[PUBLIC_DIR site ++ ["BearImages"; "a.png"] := Dir]>
    (<[PUBLIC_DIR site ++ ["BearImages"] := Dir]> exported)).

(** A machine where the exporter was never cloned. *)
Definition no_exporter : FS :=
  {[ ["Users"] := Dir;
     ["Users"; "khanhnguyen"] := Dir;
     ["Users"; "khanhnguyen"; "clawd"] := Dir;
     site := Dir ]}.

End Exporter.

(** * The callback capture listener (Node script) *)

Module Listener.

(** JavaScript strings are kept as their UTF-8 encoding, buffers as
    byte strings. *)

Definition byte (n : nat) : ascii := ascii_of_nat n.
Definition newline : string := String (byte 10) "".

(** ** [Buffer.prototype.toString('utf8')]

    Well-formed sequences are decoded (here: copied); every maximal
    ill-formed part becomes U+FFFD. *)

Definition replacement_character : string :=
  String (byte 239) (String (byte 191) (String (byte 189) "")).

(** A sequence under way: continuation bytes still needed, the range
    the next one must lie in, and the bytes seen. *)
Record partial := Partial {
  needed : nat; lower : nat; upper : nat; seen : string
}.

Definition between (lo hi n : nat) : bool := (lo <=? n)%nat && (n <=? hi)%nat.

(** A byte met outside any sequence. *)
Definition lead (b : ascii) : string * option partial :=
  let n := nat_of_ascii b in
  if between 0 127 n then (String b "", None)
  else if between 194 223 n then ("", Some (Partial 1 128 191 (String b "")))
  else if between 224 239 n then
    ("", Some (Partial 2 (if (n =? 224)%nat then 160 else 128)
                         (if (n =? 237)%nat then 159 else 191) (String b "")))
  else if between 240 244 n then
    ("", Some (Partial 3 (if (n =? 240)%nat then 144 else 128)
                         (if (n =? 244)%nat then 143 else 191) (String b "")))
  else (replacement_character, None).

Fixpoint utf8_decode (st : option partial) (bytes : string) : string :=
  match bytes with
  | "" => match st with None => "" | Some _ => replacement_character end
  | String b rest =>
      match st with
      | None => let '(out, st') := lead b in out +:+ utf8_decode st' rest
      | Some p =>
          if between (lower p) (upper p) (nat_of_ascii b) then
            match needed p with
            | S (S k) =>
                utf8_decode (Some (Partial (S k) 128 191 (seen p +:+ String b ""))) rest
            | _ => seen p +:+ String b (utf8_decode None rest)
            end
          else
            let '(out, st') := lead b in
            replacement_character +:+ out +:+ utf8_decode st' rest
      end
  end.

Definition toString_utf8 (buffer : string) : string := utf8_decode None buffer.

(** ** [JSON.stringify(value, null, 2)] *)

Local Unset Elimination Schemes.
Inductive json :=
| JString (s : string)
| JArray (items : list json)
| JObject (props : list (string * json)).
Local Set Elimination Schemes.

Definition hex_digit (n : nat) : ascii :=
  if (n <? 10)%nat then ascii_of_nat (48 + n) else ascii_of_nat (87 + n).

(** QuoteJSONString, character by character. *)
Definition escape (c : ascii) : string :=
  let n := nat_of_ascii c in
  if (n =? 34)%nat then String (byte 92) (String c "")   (* double quote *)
  else if (n =? 92)%nat then String c (String c "")      (* backslash *)
  else if (n =? 8)%nat then String (byte 92) "b"
  else if (n =? 9)%nat then String (byte 92) "t"
  else if (n =? 10)%nat then String (byte 92) "n"
  else if (n =? 12)%nat then String (byte 92) "f"
  else if (n =? 13)%nat then String (byte 92) "r"
  else if (n <? 32)%nat then
    String (byte 92) ("u00" +:+ String (hex_digit (n / 16)) (String (hex_digit (n mod 16)) ""))
  else String c "".

Fixpoint escape_all (s : string) : string :=
  match s with
  | "" => ""
  | String c rest => escape c +:+ escape_all rest
  end.

Definition quote (s : string) : string :=
  String (byte 34) (escape_all s +:+ String (byte 34) "").

Definition gap : string := "  ".

Fixpoint stringify (indent : string) (v : json) : string :=
  match v with
  | JString s => quote s
  | JArray [] => "[]"
  | JArray items =>
      "[" +:+ newline +:+ indent +:+ gap +:+
      String.concat ("," +:+ newline +:+ indent +:+ gap)
        (map (stringify (indent +:+ gap)) items) +:+
      newline +:+ indent +:+ "]"
  | JObject [] => "{}"
  | JObject props =>
      "{" +:+ newline +:+ indent +:+ gap +:+
      String.concat ("," +:+ newline +:+ indent +:+ gap)
        (map (λ kv, quote kv.1 +:+ ": " +:+ stringify (indent +:+ gap) kv.2) props) +:+
      newline +:+ indent +:+ "}"
  end.

Definition JSON_stringify (v : json) : string := stringify "" v.

(** ** [Date.prototype.toISOString], for years 0000 to 9999 *)

Definition toISOString (t : civil_time) : string :=
  digits 4 (year t) +:+ "-" +:+ digits 2 (month t) +:+ "-" +:+
  digits 2 (day t) +:+ "T" +:+ digits 2 (hour t) +:+ ":" +:+
  digits 2 (minute t) +:+ ":" +:+ digits 2 (second t) +:+ "." +:+
  digits 3 (millis t) +:+ "Z".

(** [s.replace(/[:.]/g, '-')] *)
Fixpoint replace_colon_dot (s : string) : string :=
  match s with
  | "" => ""
  | String c rest =>
      String (if Ascii.eqb c ":" || Ascii.eqb c "." then "-"%char else c)
             (replace_colon_dot rest)
  end.

(** ** The server *)

(** An incoming request: [req.method], [req.url], [req.headers] as the
    object Node built (values are strings, or arrays of strings), and
    the body as the chunks the 'data' events deliver. *)
Record request := Request {
  method : string;
  url : string;
  headers : list (string * json);
  data : list string
}.

(** One request as the listener meets it: the request, what
    [new Date()] shows when its 'end' event fires, and whether the
    file system refuses the write. *)
Record arrival := Arrival {
  req : request;
  at_time : civil_time;
  write_fails : bool
}.

Inductive effect :=
| WriteFile (file payload : string)
| ConsoleLog (line : string)
| WriteHead (r : request) (status : nat) (head : list (string * string))
| EndResponse (r : request) (body : string)
| Uncaught (file : string).      (* the exception of writeFileSync *)

(** The process: the debug directory (name to content), what it has
    done so far, and whether it is still running. *)
Record process := Process {
  files : gmap string string;
  effects : list effect;
  running : bool
}.

Definition PORT : N := 58503%N.

Section Server.
(** [debugDir] is [join(projectRoot, 'bear-callback-debug')]. *)
Context (debugDir : string).

Definition join (dir name : string) : string := dir +:+ "/" +:+ name.

(** [req.on('data', (c) => chunks.push(c))] *)
Definition on_data (chunks : list string) (c : string) : list string :=
  chunks ++ [c].

Definition body_of (r : request) : string :=
  toString_utf8 (String.concat "" (foldl on_data [] (data r))).

Definition record_name (t : civil_time) (r : request) : string :=
  replace_colon_dot (toISOString t) +:+ "-" +:+ method r +:+ ".log".

Definition record_payload (r : request) : string :=
  JSON_stringify (JObject [ ("method", JString (method r));
                            ("url", JString (url r));
                            ("headers", JObject (headers r));
                            ("body", JString (body_of r)) ]).

(** [req.on('end', ...)]: the handler runs to its end, or up to the
    exception. *)
Definition on_end (a : arrival) (p : process) : process :=
  let body := body_of (req a) in
  let name := record_name (at_time a) (req a) in
  let file := join debugDir name in
  let payload := record_payload (req a) in
  if write_fails a then
    Process (files p) (effects p ++ [Uncaught file]) false
  else
    Process (<[name := payload]> (files p))
            (effects p ++
             [ WriteFile file payload;
               ConsoleLog ("Saved callback payload → " +:+ file);
               WriteHead (req a) 200 [("Content-Type", "text/plain")];
               EndResponse (req a) "ok" ])
            true.

(** What a handler that runs to its end does, in order. *)
Definition handled (a : arrival) : list effect :=
  [ WriteFile (join debugDir (record_name (at_time a) (req a)))
              (record_payload (req a));
    ConsoleLog ("Saved callback payload → " +:+
                join debugDir (record_name (at_time a) (req a)));
    WriteHead (req a) 200 [("Content-Type", "text/plain")];
    EndResponse (req a) "ok" ].

(** The event loop: 'end' handlers run one after the other, each to
    completion; a process that has died handles nothing. *)
Definition handle (p : process) (a : arrival) : process :=
  if running p then on_end a p else p.

Definition serve (arrivals : list arrival) (p : process) : process :=
  foldl handle p arrivals.

(** [mkdirSync(debugDir, { recursive: true })], then [server.listen]. *)
Definition started (existing : gmap string string) : process :=
  Process existing
    [ ConsoleLog "Bear callback server listening on http://127.0.0.1:58503/";
      ConsoleLog "Configure grizzly callback_url to use this." ]
    true.

End Server.

(** The debug directory after one more record. *)
Definition write_record (m : gmap string string) (a : arrival) : gmap string string :=
  <[record_name (at_time a) (req a) := record_payload (req a)]> m.

(** ** Reading what the listener did *)

(** The requests answered, with the status they got, and the bodies
    sent. *)
Definition answered (es : list effect) : list (request * nat) :=
  omap (λ e, match e with WriteHead r st _ => Some (r, st) | _ => None end) es.

Definition bodies (es : list effect) : list (request * string) :=
  omap (λ e, match e with EndResponse r b => Some (r, b) | _ => None end) es.

Definition logs (es : list effect) : list string :=
  omap (λ e, match e with ConsoleLog l => Some l | _ => None end) es.

(** ** Requests to try it on *)

Definition noon : civil_time := CivilTime 2026 2 3 12 0 0 7.

Definition callback (u : string) : request :=
  Request "GET" u [("host", JString "127.0.0.1:58503")] [].

Definition post (u : string) (chunks : list string) : request :=
  Request "POST" u [("host", JString "127.0.0.1:58503");
                    ("content-type", JString "application/json")] chunks.

Definition debug : string := "/Users/khanhnguyen/clawd/note-site/bear-callback-debug".

(** Two POSTs whose 'end' events fire within the same millisecond. *)
Definition same_millisecond : list arrival :=
  [ Arrival (post "/first" ["1"]) noon false;
    Arrival (post "/second" ["2"]) noon false ].

(** A GET and a POST in the same millisecond, and a GET one
    millisecond later. *)
Definition told_apart : list arrival :=
  [ Arrival (callback "/a") noon false;
    Arrival (post "/a" ["{}"]) noon false;
    Arrival (callback "/a") (CivilTime 2026 2 3 12 0 0 8) false ].

(** The disk is full when the first of two requests ends. *)
Definition disk_full_once : list arrival :=
  [ Arrival (callback "/a") noon true;
    Arrival (callback "/b") (CivilTime 2026 2 3 12 0 1 0) false ].

End Listener.

(** * The Bear sync script (Node): it asks Bear to open the tag and
      prints how to export by hand *)

Module SyncBear.
Import Shell.

Definition newline : string := String (ascii_of_nat 10) "".
Definition double_quote : string := String (ascii_of_nat 34) "".

Inductive effect :=
| MkdirSync (dir : string) (made : bool)
| ConsoleLog (line : string)
| ExecSync (cmd : string) (status : nat)
| Uncaught.                         (* an exception nobody catches *)

#[global] Instance effect_eq_dec : EqDecision effect.
Proof. solve_decision. Defined.

Record outcome := Outcome {
  effects : list effect;
  exit_code : nat
}.

(** The lines printed after the command, in order. *)
Definition advice : list string :=
  [ newline +:+ "Hiện tại grizzly chỉ trả về URL x-callback (bear://...) chứ không trả list note dạng JSON sẵn.";
    "Để làm sync full auto, mình cần set callback server riêng (hơi overkill cho v1).";
    newline +:+ "V1 đề xuất:";
    "  • Mày vẫn gắn tag #public trong Bear";
    "  • Khi muốn publish, trong Bear: Export note → Markdown → lưu vào src/content/notes/";
    "  • Web sẽ auto build đẹp như giờ.";
    newline +:+ "Nếu mày thật sự muốn chơi full auto với grizzly + callback server, tao sẽ design flow riêng (node server nhỏ) cho version sau." ].

Definition open_tag : string :=
  "grizzly open-tag --name " +:+ double_quote +:+ "public" +:+ double_quote.

Definition header : string :=
  "> Sync Bear notes tagged #public → Markdown files...".

Section Script.
(** [outputDir] is [join(projectRoot, 'src', 'content', 'notes')];
    [mkdir_fails] tells whether [mkdirSync] throws; [child cmd] is the
    status the command ends with and what it prints on its standard
    output. *)
Context (outputDir : string) (mkdir_fails : bool) (child : string → nat * string).

(** [function run(cmd)]: logs the command, then [execSync], which
    returns the child's output or throws when its status is not 0. *)
Definition run (cmd : string) : list effect * option string :=
  ([ConsoleLog ("$ " +:+ cmd); ExecSync cmd (child cmd).1],
   if succeeded (child cmd).1 then Some (child cmd).2 else None).

Definition sync_bear : outcome :=
  if mkdir_fails then Outcome [MkdirSync outputDir false; Uncaught] 1
  else
    let start :=
      [ MkdirSync outputDir true; ConsoleLog header ] in
    match run open_tag with
    | (ran, None) => Outcome (start ++ ran ++ [Uncaught]) 1
    | (ran, Some _) => Outcome (start ++ ran ++ map ConsoleLog advice) 0
    end.

End Script.

(** What a run printed, and the commands it executed. *)
Definition printed (es : list effect) : list string :=
  omap (λ e, match e with ConsoleLog l => Some l | _ => None end) es.

Definition executed (es : list effect) : list (string * nat) :=
  omap (λ e, match e with ExecSync c st => Some (c, st) | _ => None end) es.

End SyncBear.

(** * More ways to read a run of the orchestrator and of the exporter *)

Module Readings.
Import Shell.

(** The commands of a run of the orchestrator, in order. *)
Definition commands (tr : list Orchestrator.event) : list Orchestrator.command :=
  omap (λ e, match e with Orchestrator.Ran c _ => Some c | _ => None end) tr.

(** The lines echoed by the orchestrator on one stream. *)
Definition lines (fd : stream) (tr : list Orchestrator.event) : list string :=
  omap (λ e, match e with
             | Orchestrator.Echo fd' l => if decide (fd' = fd) then Some l else None
             | _ => None
             end) tr.

(** The order of the script, for a given commit message. *)
Definition stages (msg : string) : list Orchestrator.command :=
  [ Orchestrator.ResolveRootDir; Orchestrator.CdRootDir;
    Orchestrator.NpmRun "sync-bear"; Orchestrator.NpmRun "build";
    Orchestrator.CdRootParent; Orchestrator.GitDiffQuiet "docs";
    Orchestrator.GitAdd "docs"; Orchestrator.GitCommit msg;
    Orchestrator.GitPush ].

(** Answers for particular runs of the orchestrator. *)
Definition commit_fails (c : Orchestrator.command) : nat :=
  match c with
  | Orchestrator.GitCommit _ => 1
  | c => Orchestrator.docs_changed c
  end.

Definition push_fails (c : Orchestrator.command) : nat :=
  match c with
  | Orchestrator.GitPush => 1
  | c => Orchestrator.docs_changed c
  end.

(** An environment without [date] on the PATH: the shell answers 127;
    everything else succeeds and docs differ. *)
Definition date_missing : Orchestrator.Executor unit :=
  {| Orchestrator.exec := λ c w, (Orchestrator.docs_changed c, w);
     Orchestrator.clock := λ _, Orchestrator.a_sunday;
     Orchestrator.date_default := λ _, "";
     Orchestrator.date_status := λ _, 127 |}.

(** The arrival whose record a file name holds at the end: the last
    one that wrote under that name. *)
Definition last_writer (k : string) (arrivals : list Listener.arrival)
  : option Listener.arrival :=
  last (filter (λ a, Listener.record_name (Listener.at_time a) (Listener.req a) = k)
               arrivals).

(** File systems for particular runs of the exporter script. *)

(** A regular file sits where public/BearImages should be. *)
Definition public_images_is_a_file : gmap (list string) Exporter.node :=
  <[Exporter.PUBLIC_DIR Exporter.site ++ ["BearImages"] := Exporter.File "oops"]>
    Exporter.exported.

End Readings.

(** * Statuses and traces *)

Module ShellFacts.
Import Shell.

Lemma succeeded_true st : succeeded st = true → st = 0.
Proof. unfold succeeded. intros H. by apply Nat.eqb_eq in H. Qed.

Lemma succeeded_false st : succeeded st = false → st ≠ 0.
Proof. unfold succeeded. intros H. by apply Nat.eqb_neq in H. Qed.

(** In a trace written out event by event, membership is a choice of
    position. *)
Ltac by_position :=
  rewrite ?elem_of_cons, ?elem_of_nil in *;
  intuition (try discriminate; try congruence).

End ShellFacts.

(** * Properties of the orchestrator *)

Module OrchestratorFacts.
Import Orchestrator ShellFacts.

Ltac open_script :=
  unfold pipeline, invoke, auto_sync_deploy, errexit, run, echo, emit, exit,
    date, date_fmt, mbind, mret, sh_bind, sh_ret; simpl.

Ltac walk :=
  repeat match goal with
  | |- context [exec ?E ?c ?w] =>
      let st := fresh "st" in let w' := fresh "w" in
      destruct (exec E c w) as [st w']; simpl
  | |- context [date_status ?E ?w] =>
      let st := fresh "st" in
      generalize (date_status E w); intros st
  | |- context [succeeded ?st] =>
      let H := fresh "Hst" in
      destruct (succeeded st) eqn:H; simpl;
      [apply succeeded_true in H; subst st | apply succeeded_false in H]
  end.

Example first_run_commits :
  let r := pipeline one_page (fresh_repo "# hello") in
  exit_code r = 0 ∧
  commits (trace r) = [("Auto update notes 2026-11-01 09:30:05", 0)] ∧
  ran GitPush (trace r) = [0].
Proof. vm_compute. auto. Qed.

Lemma commits_app t1 t2 : commits (t1 ++ t2) = commits t1 ++ commits t2.
Proof. unfold commits. apply omap_app. Qed.

(** The no-op branch, for any executor and any world. *)
Lemma noop_branch {World} (E : Executor World) (w : World) :
  Ran (GitDiffQuiet "docs") 0 ∈ trace (pipeline E w) →
  exit_code (pipeline E w) = 0 ∧
  last (trace (pipeline E w)) =
    Some (Echo Stdout "[auto-sync] no changes in docs, nothing to commit") ∧
  ran (GitAdd "docs") (trace (pipeline E w)) = [] ∧
  commits (trace (pipeline E w)) = [] ∧
  ran GitPush (trace (pipeline E w)) = [].
Proof.
  open_script. walk; intros Hin; try (exfalso; by_position; fail).
  repeat split; reflexivity.
Qed.

(** C1. Whenever [git diff --quiet -- docs] reports no difference, the
    run ends there: status 0, the last line logged is the no-op
    message, and neither [git add], [git commit] nor [git push] was
    invoked.  This holds from any world, so in particular for a run
    started where an earlier run [w0] stopped: the commits of the two
    runs together are those of the first. *)
Theorem noop_when_docs_unchanged {World} (E : Executor World) (w : World) :
  Ran (GitDiffQuiet "docs") 0 ∈ trace (pipeline E w) →
  (exit_code (pipeline E w) = 0 ∧
   last (trace (pipeline E w)) =
     Some (Echo Stdout "[auto-sync] no changes in docs, nothing to commit") ∧
   ran (GitAdd "docs") (trace (pipeline E w)) = [] ∧
   commits (trace (pipeline E w)) = [] ∧
   ran GitPush (trace (pipeline E w)) = []) ∧
  ∀ w0, w = final_world (pipeline E w0) →
    commits (trace (pipeline E w0) ++ trace (pipeline E w)) =
    commits (trace (pipeline E w0)).
Proof.
  intros Hin. destruct (noop_branch E w Hin) as (Hx & Hl & Ha & Hc & Hp).
  split; [by repeat split |].
  intros w0 _. rewrite commits_app, Hc. apply app_nil_r.
Qed.

Lemma noop_when_docs_unchanged_witness :
  Ran (GitDiffQuiet "docs") 0 ∈ trace (pipeline one_page after_first_run) ∧
  exit_code (pipeline one_page after_first_run) = 0 ∧
  commits (trace (pipeline one_page (fresh_repo "# hello")) ++
           trace (pipeline one_page after_first_run)) =
  commits (trace (pipeline one_page (fresh_repo "# hello"))).
Proof.
  assert (H : Ran (GitDiffQuiet "docs") 0 ∈
              trace (pipeline one_page after_first_run)).
  { apply (bool_decide_unpack _). vm_compute. exact I. }
  split; [exact H |].
  destruct (noop_when_docs_unchanged one_page after_first_run H)
    as [(Hx & _) Hre].
  split; [exact Hx | by apply Hre].
Defined.

(** C2, as stated, at a run whose export fails: the line on the error
    stream is "[auto-sync] sync-bear FAILED", in which the text
    "sync FAILED" does not occur. *)
Lemma sync_failure_line_is_not_verbatim :
  failed (NpmRun "sync-bear") (trace (pipeline (scripted sync_fails a_sunday) tt)) ∧
  ¬ logged Stderr "sync FAILED" (trace (pipeline (scripted sync_fails a_sunday) tt)).
Proof.
  split.
  - exists 1. split; [lia |]. apply (bool_decide_unpack _). vm_compute. exact I.
  - intros (line & Hin & Hsub).
    apply list_elem_of_In in Hin. vm_compute in Hin.
    destruct_or!; simplify_eq; vm_compute in Hsub; discriminate.
Qed.

(** C2, amended. If the export fails, nothing after it is invoked
    (build, diff, add, commit, push), "[auto-sync] sync-bear FAILED" is
    the last thing written, on the error stream, and the status is 1.
    If the build fails (the export then returned 0), neither diff, add,
    commit nor push is invoked, "[auto-sync] build FAILED" is the last
    thing written, on the error stream, and the status is 1. *)
Theorem fail_fast_on_sync_and_build {World} (E : Executor World) (w : World)
    (stage : string) :
  stage = "sync-bear" ∨ stage = "build" →
  failed (NpmRun stage) (trace (pipeline E w)) →
  exit_code (pipeline E w) = 1 ∧
  last (trace (pipeline E w)) =
    Some (Echo Stderr ("[auto-sync] " +:+ stage +:+ " FAILED")) ∧
  (stage = "sync-bear" → ran (NpmRun "build") (trace (pipeline E w)) = []) ∧
  (stage = "build" → ran (NpmRun "sync-bear") (trace (pipeline E w)) = [0]) ∧
  ran (GitDiffQuiet "docs") (trace (pipeline E w)) = [] ∧
  ran (GitAdd "docs") (trace (pipeline E w)) = [] ∧
  commits (trace (pipeline E w)) = [] ∧
  ran GitPush (trace (pipeline E w)) = [].
Proof.
  intros Hstage (st & Hne & Hin). revert Hin.
  open_script. walk; intros Hin;
    destruct Hstage; subst stage;
    try (exfalso; by_position; fail);
    repeat split; try reflexivity; intros; discriminate.
Qed.

Lemma fail_fast_on_sync_and_build_witness :
  (failed (NpmRun "sync-bear") (trace (pipeline (scripted sync_fails a_sunday) tt)) ∧
   exit_code (pipeline (scripted sync_fails a_sunday) tt) = 1) ∧
  (failed (NpmRun "build") (trace (pipeline (scripted build_fails a_sunday) tt)) ∧
   exit_code (pipeline (scripted build_fails a_sunday) tt) = 1).
Proof.
  assert (H1 : failed (NpmRun "sync-bear")
                 (trace (pipeline (scripted sync_fails a_sunday) tt))).
  { exists 1. split; [lia |]. apply (bool_decide_unpack _). vm_compute. exact I. }
  assert (H2 : failed (NpmRun "build")
                 (trace (pipeline (scripted build_fails a_sunday) tt))).
  { exists 1. split; [lia |]. apply (bool_decide_unpack _). vm_compute. exact I. }
  split; (split; [assumption |]).
  - exact (proj1 (fail_fast_on_sync_and_build
                    (scripted sync_fails a_sunday) tt "sync-bear" (or_introl eq_refl) H1)).
  - exact (proj1 (fail_fast_on_sync_and_build
                    (scripted build_fails a_sunday) tt "build" (or_intror eq_refl) H2)).
Defined.

Lemma strftime_YmdHMS t : strftime "%Y-%m-%d %H:%M:%S" t = YmdHMS t.
Proof. reflexivity. Qed.



(** Where a status other than 0 and 1 can come from: a command that is
    not guarded by an [if] and fails ends the script, under [set -e],
    with its own status.  There are five: the four simple commands of
    lines 4, 5, 27 and 39, and the [date] of line 35. *)
Lemma exit_code_cases {World} (E : Executor World) (w : World) :
  exit_code (pipeline E w) = 0 ∨ exit_code (pipeline E w) = 1 ∨
  (exit_code (pipeline E w) ≠ 0 ∧
   (last (trace (pipeline E w)) = Some (DateFailed (exit_code (pipeline E w))) ∨
    ∃ c, c ∈ [ResolveRootDir; CdRootDir; CdRootParent; GitAdd "docs"] ∧
         last (trace (pipeline E w)) = Some (Ran c (exit_code (pipeline E w))))).
Proof.
  open_script. walk; auto;
    right; right; (split; [eassumption |]);
    first [ by left
          | right; eexists; (split; [| reflexivity]); by_position ].
Qed.

(** C6, at a run where the export and the build succeed, docs differ
    and [git add docs] fails with git's status 128: the script ends
    with status 128, [git commit] and [git push] are not reached, and
    it writes nothing on the error stream. *)
Theorem git_add_failure_escapes_as_128 :
  exit_code (pipeline (scripted add_fails a_sunday) tt) = 128 ∧
  last (trace (pipeline (scripted add_fails a_sunday) tt)) =
    Some (Ran (GitAdd "docs") 128) ∧
  commits (trace (pipeline (scripted add_fails a_sunday) tt)) = [] ∧
  ¬ ∃ line, Echo Stderr line ∈ trace (pipeline (scripted add_fails a_sunday) tt).
Proof.
  repeat split; try reflexivity.
  intros (line & Hin). apply list_elem_of_In in Hin. vm_compute in Hin.
  destruct_or!; simplify_eq.
Qed.

(** On the reference repository, for any exporter and builder that
    are functions of what they read, the hypothesis of the no-op branch
    is met by every second run: whatever the first run did, it left
    the index equal to what the notes render to. *)
Section ReferenceFacts.
Context (export render : string → string).
Lemma reference_run_stages_docs (r0 : repo) :
  staged r0 = render (export (notes r0)) ∨
  staged (final_world (pipeline (reference export render) r0)) = render (export (notes r0)).
Proof.
  destruct r0 as [n c d s h p t].
  destruct (String.eqb (render (export n)) s) eqn:Hd.
  - left. apply String.eqb_eq in Hd. by simpl.
  - right. open_script. rewrite Hd. simpl.
    destruct (String.eqb (render (export n)) (head_tree _)); reflexivity.
Qed.

Lemma reference_run_keeps_notes (r0 : repo) :
  notes (final_world (pipeline (reference export render) r0)) = notes r0 ∧
  (staged r0 = render (export (notes r0)) →
   staged (final_world (pipeline (reference export render) r0)) = render (export (notes r0))).
Proof.
  destruct r0 as [n c d s h p t].
  open_script.
  destruct (String.eqb (render (export n)) s) eqn:Hd; simpl.
  - by split.
  - destruct (String.eqb (render (export n)) (head_tree _)); simpl; by split.
Qed.

Lemma reference_noop_when_staged (r : repo) :
  staged r = render (export (notes r)) →
  Ran (GitDiffQuiet "docs") 0 ∈ trace (pipeline (reference export render) r).
Proof.
  destruct r as [n c d s h p t]. simpl. intros ->.
  open_script. rewrite String.eqb_refl. simpl. by_position.
Qed.

Lemma reference_rerun_is_noop (r0 : repo) :
  Ran (GitDiffQuiet "docs") 0 ∈
    trace (pipeline (reference export render) (final_world (pipeline (reference export render) r0))).
Proof.
  apply reference_noop_when_staged.
  destruct (reference_run_keeps_notes r0) as [-> Hkeep].
  destruct (reference_run_stages_docs r0); auto.
Qed.
End ReferenceFacts.

End OrchestratorFacts.

(** * Properties of the exporter adapter and the asset relay *)

Module ExporterFacts.
Import Exporter ShellFacts.

(** ** Paths *)

Lemma relative_Some base p rel : relative base p = Some rel ↔ p = base ++ rel.
Proof.
  revert p. induction base as [| b base IH]; intros p; simpl.
  - split; [by intros [= ->] | by intros ->].
  - destruct p as [| c p]; [split; [done | intros [=]] |].
    case_decide as Hbc.
    + subst c. rewrite IH. split; [by intros -> | by intros [= ->]].
    + split; [done | intros [= <- _]; done].
Qed.

Lemma inside_Some base p rel :
  inside base p = Some rel ↔ p = base ++ rel ∧ rel ≠ [].
Proof.
  unfold inside. destruct (relative base p) as [[| c r] |] eqn:Hrel.
  - apply relative_Some in Hrel. subst p. split; [done |].
    intros [H Hne]. apply app_inv_head in H. by subst rel.
  - apply relative_Some in Hrel. subst p. split.
    + by intros [= <-].
    + intros [H _]. apply app_inv_head in H. by subst rel.
  - split; [done |]. intros [-> _].
    assert (relative base (base ++ rel) = Some rel) by by apply relative_Some.
    congruence.
Qed.

Lemma inside_app base rel : rel ≠ [] → inside base (base ++ rel) = Some rel.
Proof. intros. by apply inside_Some. Qed.


Lemma test_d_lookup (fs : FS) (p : path) :
  p ≠ [] → test_d fs p = true → fs !! p = Some Dir.
Proof.
  destruct p as [| c p]; [done |]. simpl. intros _.
  by rewrite bool_decide_eq_true.
Qed.

(** ** [mkdir -p] *)

(** What [mkdir -p] leaves: every entry that was there, as it was, and
    new directories on the way to the target. *)
Lemma mkdir_from_lookup rest : ∀ base fs ok fs',
  mkdir_from base rest fs = (ok, fs') →
  ∀ p, fs' !! p = fs !! p ∨
       (fs !! p = None ∧ fs' !! p = Some Dir ∧
        base `prefix_of` p ∧ p `prefix_of` base ++ rest ∧ p ≠ base).
Proof.
  induction rest as [| c rest IH]; intros base fs ok fs' Hmk p; simpl in Hmk.
  - injection Hmk as <- <-. by left.
  - assert (Hstep : (fs !! (base ++ [c]) = None ∨ fs !! (base ++ [c]) = Some Dir) →
              mkdir_from (base ++ [c]) rest (<[base ++ [c] := Dir]> fs) = (ok, fs') →
              fs' !! p = fs !! p ∨
              (fs !! p = None ∧ fs' !! p = Some Dir ∧ base `prefix_of` p ∧
               p `prefix_of` base ++ c :: rest ∧ p ≠ base)).
    { intros Hentry Hrec.
      destruct (IH _ _ _ _ Hrec p) as [Heq | (Hnone & Hdir & Hpre & Hpre' & Hne)].
      - destruct (decide (p = base ++ [c])) as [-> | Hp].
        + rewrite lookup_insert_eq in Heq.
          destruct Hentry as [Hentry | Hentry]; rewrite Hentry; [right | by left].
          repeat split; auto.
          * by apply prefix_app_r.
          * apply prefix_app; by apply prefix_cons, prefix_nil.
          * intros H. rewrite <- (app_nil_r base) in H at 2.
            by apply app_inv_head in H.
        + rewrite lookup_insert_ne in Heq by done. by left.
      - destruct (decide (p = base ++ [c])) as [-> | Hp]; [done |].
        rewrite lookup_insert_ne in Hnone by done. right.
        rewrite <- app_assoc in Hpre'. simpl in Hpre'.
        repeat split; auto.
        + etrans; [| exact Hpre]. by apply prefix_app_r.
        + intros ->. apply prefix_length in Hpre.
          rewrite length_app in Hpre. simpl in Hpre. lia. }
    destruct (fs !! (base ++ [c])) as [[bytes |] |] eqn:Hentry.
    + injection Hmk as <- <-. by left.
    + apply Hstep; auto.
    + apply Hstep; auto.
Qed.

Lemma mkdir_from_keeps rest base fs ok fs' p n :
  mkdir_from base rest fs = (ok, fs') → fs !! p = Some n → fs' !! p = Some n.
Proof.
  intros Hmk Hp.
  destruct (mkdir_from_lookup _ _ _ _ _ Hmk p) as [-> | (Hnone & _)]; congruence.
Qed.

Lemma mkdir_from_made rest : ∀ base fs fs',
  mkdir_from base rest fs = (true, fs') → rest ≠ [] →
  fs' !! (base ++ rest) = Some Dir.
Proof.
  induction rest as [| c rest IH]; intros base fs fs' Hmk Hne; [done |].
  simpl in Hmk.
  assert (Hrec : mkdir_from (base ++ [c]) rest (<[base ++ [c] := Dir]> fs) = (true, fs') →
                 fs' !! (base ++ c :: rest) = Some Dir).
  { intros Hrec. destruct rest as [| c' rest].
    - simpl in Hrec. injection Hrec as <-. apply lookup_insert_eq.
    - rewrite (cons_middle c base). rewrite app_assoc. by apply (IH _ _ _ Hrec). }
  destruct (fs !! (base ++ [c])) as [[bytes |] |]; [discriminate | auto | auto].
Qed.

Lemma mkdir_p_keeps ps : ∀ fs st fs' p n,
  mkdir_p ps fs = (st, fs') → fs !! p = Some n → fs' !! p = Some n.
Proof.
  induction ps as [| q ps IH]; intros fs st fs' p n Hmk Hp; simpl in Hmk.
  - by injection Hmk as <- <-.
  - destruct (mkdir_from [] q fs) as [ok fs1] eqn:H1.
    destruct (mkdir_p ps fs1) as [st2 fs2] eqn:H2.
    injection Hmk as <- <-.
    eapply IH; [exact H2 |]. by eapply mkdir_from_keeps.
Qed.

Lemma test_d_keeps fs fs' p :
  (∀ q n, fs !! q = Some n → fs' !! q = Some n) →
  test_d fs p = true → test_d fs' p = true.
Proof.
  intros Hkeep. destruct p as [| c p]; [done |]. simpl.
  rewrite !bool_decide_eq_true. apply Hkeep.
Qed.

(** A successful [mkdir -p] leaves every operand a directory. *)
Lemma mkdir_p_made ps : ∀ fs fs',
  mkdir_p ps fs = (0, fs') → Forall (λ p, test_d fs' p = true) ps.
Proof.
  induction ps as [| q ps IH]; intros fs fs' Hmk; [constructor |].
  simpl in Hmk.
  destruct (mkdir_from [] q fs) as [ok fs1] eqn:H1.
  destruct (mkdir_p ps fs1) as [st2 fs2] eqn:H2.
  destruct ok; [| discriminate]. injection Hmk as -> ->.
  constructor; [| by eapply IH].
  apply (test_d_keeps fs1); [intros; by eapply mkdir_p_keeps |].
  destruct q as [| c q]; [done |]. simpl. apply bool_decide_eq_true.
  by apply (mkdir_from_made (c :: q) [] fs fs1).
Qed.

(** New entries are directories no longer than some operand. *)
Lemma mkdir_p_lookup ps : ∀ fs st fs' p,
  mkdir_p ps fs = (st, fs') →
  fs' !! p = fs !! p ∨
  (fs !! p = None ∧ fs' !! p = Some Dir ∧ ∃ q, q ∈ ps ∧ p `prefix_of` q).
Proof.
  induction ps as [| q ps IH]; intros fs st fs' p Hmk; simpl in Hmk.
  - injection Hmk as <- <-. by left.
  - destruct (mkdir_from [] q fs) as [ok fs1] eqn:H1.
    destruct (mkdir_p ps fs1) as [st2 fs2] eqn:H2.
    injection Hmk as <- <-.
    destruct (mkdir_from_lookup _ _ _ _ _ H1 p) as [Heq1 | (Hn1 & Hd1 & _ & Hpre & _)];
      destruct (IH _ _ _ p H2) as [Heq2 | (Hn2 & Hd2 & q' & Hq' & Hpre')].
    + left. congruence.
    + right. repeat split; [congruence | done |].
      exists q'. split; [by right | done].
    + right. repeat split; [done | congruence |].
      exists q. split; [by left | done].
    + congruence.
Qed.

(** ** [rsync -r] *)


(** What the transfer leaves at each path. *)
Lemma transfer_lookup (same_mtime : path → path → bool) (fs0 : FS)
    (src dst : path) (start m : FS) (q : path) :
  map_fold (transfer same_mtime fs0 src dst) start m !! q =
  match inside dst q with
  | Some rel =>
      match m !! (src ++ rel) with
      | Some n =>
          if blocked fs0 src dst (src ++ rel) n
             || quick_check same_mtime fs0 (src ++ rel) (dst ++ rel) n
          then start !! q else Some n
      | None => start !! q
      end
  | None => start !! q
  end.
Proof.
  revert q.
  apply (map_fold_weak_ind (λ acc (m : FS), ∀ q, acc !! q =
    match inside dst q with
    | Some rel =>
        match m !! (src ++ rel) with
        | Some n =>
            if blocked fs0 src dst (src ++ rel) n
               || quick_check same_mtime fs0 (src ++ rel) (dst ++ rel) n
            then start !! q else Some n
        | None => start !! q
        end
    | None => start !! q
    end)).
  - intros q. destruct (inside dst q); [by rewrite lookup_empty | done].
  - intros i x m' acc Hfresh IH q. unfold transfer.
    destruct (inside src i) as [rel_i |] eqn:Hi.
    + apply inside_Some in Hi as [-> Hne_i].
      destruct (blocked fs0 src dst (src ++ rel_i) x
                || quick_check same_mtime fs0 (src ++ rel_i) (dst ++ rel_i) x)
        eqn:Hskip.
      * rewrite IH. destruct (inside dst q) as [rel |] eqn:Hq; [| done].
        destruct (decide (rel = rel_i)) as [-> | Hrel].
        -- by rewrite lookup_insert_eq, Hfresh, Hskip.
        -- rewrite lookup_insert_ne; [done |]. intros H. by apply app_inv_head in H.
      * destruct (inside dst q) as [rel |] eqn:Hq.
        -- pose proof Hq as Hq'. apply inside_Some in Hq' as [-> Hne].
           destruct (decide (rel = rel_i)) as [-> | Hrel].
           ++ by rewrite !lookup_insert_eq, Hskip.
           ++ rewrite !lookup_insert_ne, IH, Hq; [done | |];
                intros H; by apply app_inv_head in H.
        -- rewrite lookup_insert_ne, IH, Hq; [done |].
           intros <-. by rewrite inside_app in Hq.
    + rewrite IH. destruct (inside dst q) as [rel |] eqn:Hq; [| done].
      apply inside_Some in Hq as [-> Hne].
      rewrite lookup_insert_ne; [done |].
      intros ->. by rewrite inside_app in Hi.
Qed.

(** When [rsync -r] returns 0 it ran the transfer and nothing was
    blocked. *)
Lemma rsync_r_ok (same_mtime : path → path → bool) (src dst : path)
    (fs fs' : FS) :
  rsync_r same_mtime src dst fs = (0, fs') →
  fs' = map_fold (transfer same_mtime fs src dst) (<[dst := Dir]> fs) fs ∧
  (∀ p n, fs !! p = Some n → blocked fs src dst p n = false) ∧
  test_f fs dst = false.
Proof.
  unfold rsync_r.
  destruct (test_d fs src); simpl; [| discriminate].
  destruct (test_f fs dst); simpl; [discriminate |].
  destruct (test_d fs dst || test_d fs (parent dst)); simpl; [| discriminate].
  case_bool_decide as Hall; [| discriminate].
  intros [= <-]. by repeat split.
Qed.

(** After a [rsync -r] that returned 0: below the destination, a path
    that names something in the source holds that entry, unless the
    quick check passed over it, in which case it holds what it held;
    every other path holds what it held. *)
Lemma rsync_r_lookup (same_mtime : path → path → bool) (src dst : path)
    (fs fs' : FS) (q : path) :
  rsync_r same_mtime src dst fs = (0, fs') →
  fs' !! q =
  match inside dst q with
  | Some rel =>
      match fs !! (src ++ rel) with
      | Some n =>
          if quick_check same_mtime fs (src ++ rel) (dst ++ rel) n
          then fs !! q else Some n
      | None => fs !! q
      end
  | None => if decide (q = dst) then Some Dir else fs !! q
  end.
Proof.
  intros Hok. apply rsync_r_ok in Hok as (-> & Hfree & _).
  rewrite transfer_lookup.
  destruct (inside dst q) as [rel |] eqn:Hq.
  - apply inside_Some in Hq as [-> Hne].
    assert (dst ++ rel ≠ dst).
    { intros H. rewrite <- (app_nil_r dst) in H at 2. by apply app_inv_head in H. }
    destruct (fs !! (src ++ rel)) as [n |] eqn:Hn.
    + rewrite (Hfree _ _ Hn). simpl.
      destruct (quick_check _ _ _ _ _); [by rewrite lookup_insert_ne | done].
    + by rewrite lookup_insert_ne.
  - case_decide as Hd; [subst q; apply lookup_insert_eq |].
    by rewrite lookup_insert_ne.
Qed.

(** ** The script *)

Ltac open_script :=
  unfold invoke, run_bear_export, asset_relay, mkdir, run_python3, rsync,
    test_file, test_directory, echo, emit, exit, errexit,
    mbind, mret, sh_bind, sh_ret; simpl.

Ltac reduce := cbn -[mkdir_p rsync_r test_d test_f].

(** The image folder is not on the way to the public one. *)
Lemma images_not_towards_public (ROOT_DIR rel q : path) :
  q ∈ [PUBLIC_DIR ROOT_DIR ++ ["BearImages"]] →
  ¬ (OUT_DIR ROOT_DIR ++ ["BearImages"]) ++ rel `prefix_of` q.
Proof.
  intros Hq%list_elem_of_singleton Hpre. subst q.
  apply prefix_length in Hpre. unfold OUT_DIR, PUBLIC_DIR in Hpre.
  rewrite !length_app in Hpre. simpl in Hpre. lia.
Qed.

(** The relay, when it runs to the end with status 0: the file system
    after [mkdir -p] and after [rsync -r]. *)
Lemma asset_relay_steps (ROOT_DIR : path) (same_mtime : path → path → bool)
    (fs : FS) :
  test_d fs (OUT_DIR ROOT_DIR ++ ["BearImages"]) = true →
  exit_code (invoke (asset_relay ROOT_DIR same_mtime) fs) = 0 →
  ∃ fs1,
    mkdir_p [PUBLIC_DIR ROOT_DIR ++ ["BearImages"]] fs = (0, fs1) ∧
    rsync_r same_mtime (OUT_DIR ROOT_DIR ++ ["BearImages"])
            (PUBLIC_DIR ROOT_DIR ++ ["BearImages"]) fs1 =
      (0, final_world (invoke (asset_relay ROOT_DIR same_mtime) fs)) ∧
    trace (invoke (asset_relay ROOT_DIR same_mtime) fs) =
      [ TestD (OUT_DIR ROOT_DIR ++ ["BearImages"]) true;
        Mkdir [PUBLIC_DIR ROOT_DIR ++ ["BearImages"]] 0;
        Rsync (OUT_DIR ROOT_DIR ++ ["BearImages"])
              (PUBLIC_DIR ROOT_DIR ++ ["BearImages"]) 0 ].
Proof.
  intros Himages. unfold invoke, asset_relay, test_directory, mbind, sh_bind.
  rewrite Himages. unfold mkdir, rsync, errexit.
  destruct (mkdir_p _ fs) as [st1 fs1] eqn:Hmk.
  destruct (succeeded st1) eqn:Hst1.
  - apply succeeded_true in Hst1. subst st1.
    destruct (rsync_r _ _ _ fs1) as [st2 fs2] eqn:Hrs.
    destruct (succeeded st2) eqn:Hst2; simpl.
    + apply succeeded_true in Hst2. subst st2. intros _. by exists fs1.
    + intros ->. discriminate.
  - simpl. intros ->. discriminate.
Qed.

(** Below public/BearImages, the [mkdir -p] of the relay changes
    nothing: the quick check finds there what was there before. *)
Lemma relay_mkdir_keeps_below (ROOT_DIR : path) (fs fs1 : FS) (st : nat)
    (rel : path) :
  mkdir_p [PUBLIC_DIR ROOT_DIR ++ ["BearImages"]] fs = (st, fs1) →
  rel ≠ [] →
  fs1 !! ((PUBLIC_DIR ROOT_DIR ++ ["BearImages"]) ++ rel)
    = fs !! ((PUBLIC_DIR ROOT_DIR ++ ["BearImages"]) ++ rel).
Proof.
  intros Hmk Hrel.
  destruct (mkdir_p_lookup _ _ _ _ ((PUBLIC_DIR ROOT_DIR ++ ["BearImages"]) ++ rel) Hmk)
    as [-> | (_ & _ & q & Hq%list_elem_of_singleton & Hpre)]; [done |].
  subst q. apply prefix_length in Hpre. rewrite length_app in Hpre.
  destruct rel; [done |]. simpl in Hpre. lia.
Qed.

(** C7, as stated, at two runs of the relay after an export that wrote
    the image a.png.  In the first a directory that is not empty holds
    the name public/BearImages/a.png: [rsync] cannot replace it, returns
    23 and the name still holds a directory.  In the second an older
    image of the same size and modification time holds that name: the
    quick check passes over it, [rsync] returns 0 and the published
    bytes are still the old ones.  In both the image folder exists and
    the image is not in the public-asset directory with its bytes. *)
Lemma relay_leaves_image_unpublished :
  (test_d image_name_taken (OUT_DIR site ++ ["BearImages"]) = true ∧
   image_name_taken !! ((OUT_DIR site ++ ["BearImages"]) ++ ["a.png"])
     = Some (File "PNG-bytes") ∧
   exit_code (invoke (asset_relay site times_differ) image_name_taken) = 23 ∧
   final_world (invoke (asset_relay site times_differ) image_name_taken)
     !! ((PUBLIC_DIR site ++ ["BearImages"]) ++ ["a.png"]) = Some Dir) ∧
  (test_d stale_image (OUT_DIR site ++ ["BearImages"]) = true ∧
   stale_image !! ((OUT_DIR site ++ ["BearImages"]) ++ ["a.png"])
     = Some (File "PNG-bytes") ∧
   exit_code (invoke (asset_relay site times_agree) stale_image) = 0 ∧
   final_world (invoke (asset_relay site times_agree) stale_image)
     !! ((PUBLIC_DIR site ++ ["BearImages"]) ++ ["a.png"]) = Some (File "OLD-bytes")).
Proof. repeat split; vm_compute; reflexivity. Qed.

(** C7, amended. Whenever the image folder exists under the content
    directory and the relay runs to its end (status 0): every regular
    file below src/content/notes/BearImages, at any depth, is afterwards
    a regular file at the same relative path below public/BearImages,
    with the same bytes unless the quick check passed over it, which it
    does only where a regular file of the same size and modification
    time was there already, and that file then keeps its bytes; no path
    that existed has disappeared; a file in public/BearImages whose
    relative path names nothing in the source keeps its bytes; and so
    does every file outside public/BearImages. *)
Theorem asset_relay_mirrors_images (ROOT_DIR : path)
    (same_mtime : path → path → bool) (fs : FS) :
  test_d fs (OUT_DIR ROOT_DIR ++ ["BearImages"]) = true →
  exit_code (invoke (asset_relay ROOT_DIR same_mtime) fs) = 0 →
  (∀ rel bytes,
     fs !! ((OUT_DIR ROOT_DIR ++ ["BearImages"]) ++ rel) = Some (File bytes) →
     final_world (invoke (asset_relay ROOT_DIR same_mtime) fs)
       !! ((PUBLIC_DIR ROOT_DIR ++ ["BearImages"]) ++ rel) =
     match fs !! ((PUBLIC_DIR ROOT_DIR ++ ["BearImages"]) ++ rel) with
     | Some (File old) =>
         if (String.length bytes =? String.length old)%nat
            && same_mtime ((OUT_DIR ROOT_DIR ++ ["BearImages"]) ++ rel)
                          ((PUBLIC_DIR ROOT_DIR ++ ["BearImages"]) ++ rel)
         then Some (File old) else Some (File bytes)
     | _ => Some (File bytes)
     end) ∧
  (∀ p, is_Some (fs !! p) →
        is_Some (final_world (invoke (asset_relay ROOT_DIR same_mtime) fs) !! p)) ∧
  (∀ rel bytes,
     fs !! ((PUBLIC_DIR ROOT_DIR ++ ["BearImages"]) ++ rel) = Some (File bytes) →
     fs !! ((OUT_DIR ROOT_DIR ++ ["BearImages"]) ++ rel) = None →
     final_world (invoke (asset_relay ROOT_DIR same_mtime) fs)
       !! ((PUBLIC_DIR ROOT_DIR ++ ["BearImages"]) ++ rel) = Some (File bytes)) ∧
  (∀ p bytes,
     inside (PUBLIC_DIR ROOT_DIR ++ ["BearImages"]) p = None →
     fs !! p = Some (File bytes) →
     final_world (invoke (asset_relay ROOT_DIR same_mtime) fs) !! p = Some (File bytes)).
Proof.
  intros Himages Hexit.
  destruct (asset_relay_steps ROOT_DIR same_mtime fs Himages Hexit)
    as (fs1 & Hmk & Hrs & _).
  pose proof (relay_mkdir_keeps_below ROOT_DIR fs fs1 0) as Hbelow.
  set (src := OUT_DIR ROOT_DIR ++ ["BearImages"]) in *.
  set (dst := PUBLIC_DIR ROOT_DIR ++ ["BearImages"]) in *.
  set (fs2 := final_world (invoke (asset_relay ROOT_DIR same_mtime) fs)) in *.
  assert (Hsrc : fs !! src = Some Dir).
  { apply test_d_lookup; [| done]. unfold src. by destruct (OUT_DIR ROOT_DIR). }
  assert (Hdst : fs1 !! dst = Some Dir).
  { pose proof (mkdir_p_made _ _ _ Hmk) as Hmade.
    inversion Hmade as [| ? ? Hd _]; subst.
    apply test_d_lookup; [| done]. unfold dst. by destruct (PUBLIC_DIR ROOT_DIR). }
  assert (Hkeep : ∀ p n, fs !! p = Some n → fs1 !! p = Some n).
  { intros p n. by apply (mkdir_p_keeps _ _ _ _ _ _ Hmk). }
  assert (Hdst_not_file : ∀ bytes, fs !! dst ≠ Some (File bytes)).
  { intros bytes H. apply Hkeep in H. congruence. }
  repeat split.
  - intros rel bytes Hfile.
    assert (rel ≠ []) by (intros ->; rewrite app_nil_r in Hfile; congruence).
    rewrite (rsync_r_lookup _ _ _ _ _ _ Hrs), inside_app by done.
    rewrite (Hkeep _ _ Hfile). unfold quick_check.
    rewrite (Hbelow rel Hmk) by done.
    destruct (fs !! (dst ++ rel)) as [[old |] |]; [| done | done].
    by destruct (_ && _).
  - intros p [n Hp]. apply Hkeep in Hp.
    rewrite (rsync_r_lookup _ _ _ _ _ _ Hrs).
    destruct (inside dst p) as [rel |].
    + destruct (fs1 !! (src ++ rel)); [| by rewrite Hp].
      destruct (quick_check _ _ _ _ _); [by rewrite Hp | done].
    + case_decide; [done | by rewrite Hp].
  - intros rel bytes Hfile Hnone.
    assert (rel ≠ []).
    { intros ->. rewrite app_nil_r in Hfile. by apply Hdst_not_file in Hfile. }
    rewrite (rsync_r_lookup _ _ _ _ _ _ Hrs), inside_app by done.
    destruct (mkdir_p_lookup _ _ _ _ (src ++ rel) Hmk)
      as [-> | (_ & _ & q & Hq & Hpre)].
    + rewrite Hnone. by apply Hkeep.
    + by apply images_not_towards_public in Hpre.
  - intros p bytes Hout Hfile.
    rewrite (rsync_r_lookup _ _ _ _ _ _ Hrs), Hout.
    case_decide as Hp; [subst p; by apply Hdst_not_file in Hfile |].
    by apply Hkeep.
Qed.

Lemma asset_relay_mirrors_images_witness :
  test_d stale_image (OUT_DIR site ++ ["BearImages"]) = true ∧
  exit_code (invoke (asset_relay site times_differ) stale_image) = 0 ∧
  stale_image !! ((OUT_DIR site ++ ["BearImages"]) ++ ["a.png"]) =
    Some (File "PNG-bytes") ∧
  stale_image !! ((PUBLIC_DIR site ++ ["BearImages"]) ++ ["a.png"]) =
    Some (File "OLD-bytes") ∧
  final_world (invoke (asset_relay site times_differ) stale_image)
    !! ((PUBLIC_DIR site ++ ["BearImages"]) ++ ["a.png"]) = Some (File "PNG-bytes").
Proof.
  assert (H1 : test_d stale_image (OUT_DIR site ++ ["BearImages"]) = true)
    by (vm_compute; reflexivity).
  assert (H2 : exit_code (invoke (asset_relay site times_differ) stale_image) = 0)
    by (vm_compute; reflexivity).
  assert (H3 : stale_image !! ((OUT_DIR site ++ ["BearImages"]) ++ ["a.png"]) =
               Some (File "PNG-bytes")) by (vm_compute; reflexivity).
  assert (H4 : stale_image !! ((PUBLIC_DIR site ++ ["BearImages"]) ++ ["a.png"]) =
               Some (File "OLD-bytes")) by (vm_compute; reflexivity).
  split; [exact H1 |]. split; [exact H2 |]. split; [exact H3 |].
  split; [exact H4 |].
  pose proof (proj1 (asset_relay_mirrors_images site times_differ stale_image H1 H2)
                ["a.png"] _ H3) as Hcopy.
  rewrite H4 in Hcopy. exact Hcopy.
Defined.

(** C8, as stated, at two runs on a fresh checkout, neither of which
    has an image folder.  With nothing to export, the script ends with
    status 0, but the public-asset directory, absent before the run, is
    a directory after it.  With an exporter that crashes, the test for
    the image folder is never reached and the script ends with the
    exporter's status 2. *)
Lemma public_dir_is_made_without_images :
  (TestD (OUT_DIR site ++ ["BearImages"]) false
     ∈ trace (invoke (run_bear_export site writes_nothing times_differ) checkout) ∧
   exit_code (invoke (run_bear_export site writes_nothing times_differ) checkout) = 0 ∧
   checkout !! PUBLIC_DIR site = None ∧
   final_world (invoke (run_bear_export site writes_nothing times_differ) checkout)
     !! PUBLIC_DIR site = Some Dir) ∧
  (test_d checkout (OUT_DIR site ++ ["BearImages"]) = false ∧
   test_d (final_world (invoke (run_bear_export site crashes times_differ) checkout))
          (OUT_DIR site ++ ["BearImages"]) = false ∧
   exit_code (invoke (run_bear_export site crashes times_differ) checkout) = 2).
Proof.
  split.
  - split; [apply (bool_decide_unpack _); vm_compute; exact I |].
    repeat split; vm_compute; reflexivity.
  - repeat split; vm_compute; reflexivity.
Qed.

(** C8, amended. Whenever the test for the image folder is reached and
    fails, the script ends with status 0 and the relay has done
    nothing: the trace is the initial [mkdir -p], the exporter check,
    the exporter and the failed test (no [mkdir] of public/BearImages,
    no [rsync]), so the initial [mkdir -p] and the exporter had returned
    0, and the file system is the one the exporter left.  Before the
    exporter, the initial [mkdir -p] has kept every entry and added only
    directories on the way to the content, backup and public-asset
    directories, the public-asset directory among them. *)
Theorem relay_skipped_without_images
    (ROOT_DIR : path) (python3 : path → path → path → FS → nat * FS)
    (same_mtime : path → path → bool) (fs : FS) :
  TestD (OUT_DIR ROOT_DIR ++ ["BearImages"]) false
    ∈ trace (invoke (run_bear_export ROOT_DIR python3 same_mtime) fs) →
  exit_code (invoke (run_bear_export ROOT_DIR python3 same_mtime) fs) = 0 ∧
  ∃ fs1,
    mkdir_p [OUT_DIR ROOT_DIR; BACKUP_DIR ROOT_DIR; PUBLIC_DIR ROOT_DIR] fs
      = (0, fs1) ∧
    python3 (EXPORT_SCRIPT ROOT_DIR) (OUT_DIR ROOT_DIR) (BACKUP_DIR ROOT_DIR) fs1
      = (0, final_world (invoke (run_bear_export ROOT_DIR python3 same_mtime) fs)) ∧
    trace (invoke (run_bear_export ROOT_DIR python3 same_mtime) fs) =
      [ Mkdir [OUT_DIR ROOT_DIR; BACKUP_DIR ROOT_DIR; PUBLIC_DIR ROOT_DIR] 0;
        TestF (EXPORT_SCRIPT ROOT_DIR) true;
        Python3 (EXPORT_SCRIPT ROOT_DIR) (OUT_DIR ROOT_DIR) (BACKUP_DIR ROOT_DIR) 0;
        TestD (OUT_DIR ROOT_DIR ++ ["BearImages"]) false ] ∧
    (∀ p n, fs !! p = Some n → fs1 !! p = Some n) ∧
    (∀ p, fs !! p = None → fs1 !! p = None ∨ fs1 !! p = Some Dir) ∧
    test_d fs1 (PUBLIC_DIR ROOT_DIR) = true.
Proof.
  unfold invoke, run_bear_export, asset_relay, mkdir, run_python3, rsync,
    test_file, test_directory, echo, emit, exit, errexit, mbind, mret,
    sh_bind, sh_ret.
  destruct (mkdir_p _ fs) as [st1 fs1] eqn:Hmk1.
  destruct (succeeded st1) eqn:Hst1; [| reduce; by_position].
  apply succeeded_true in Hst1. subst st1.
  destruct (test_f fs1 _) eqn:Hfound; reduce; [| by_position].
  destruct (python3 _ _ _ fs1) as [st2 fs2] eqn:Hpy.
  destruct (succeeded st2) eqn:Hst2; [| reduce; by_position].
  apply succeeded_true in Hst2. subst st2.
  destruct (test_d fs2 _) eqn:Himages; reduce.
  - destruct (mkdir_p _ fs2) as [st3 fs3].
    destruct (succeeded st3); [| reduce; by_position].
    destruct (rsync_r _ _ _ fs3) as [st4 fs4].
    destruct (succeeded st4); reduce; by_position.
  - reduce. intros _. split; [done |]. exists fs1.
    repeat split; try done.
    + intros p n. by apply (mkdir_p_keeps _ _ _ _ _ _ Hmk1).
    + intros p Hp.
      destruct (mkdir_p_lookup _ _ _ _ p Hmk1) as [-> | (_ & -> & _)]; auto.
    + pose proof (mkdir_p_made _ _ _ Hmk1) as Hmade.
      by repeat (apply Forall_cons_1 in Hmade as [? Hmade]).
Qed.

Lemma relay_skipped_without_images_witness :
  TestD (OUT_DIR site ++ ["BearImages"]) false
    ∈ trace (invoke (run_bear_export site writes_nothing times_differ) checkout) ∧
  exit_code (invoke (run_bear_export site writes_nothing times_differ) checkout) = 0.
Proof.
  assert (H : TestD (OUT_DIR site ++ ["BearImages"]) false
                ∈ trace (invoke (run_bear_export site writes_nothing times_differ) checkout)).
  { apply (bool_decide_unpack _). vm_compute. exact I. }
  split; [exact H |].
  exact (proj1 (relay_skipped_without_images site writes_nothing times_differ checkout H)).
Defined.

(** C9. In every run the check for the exporter script, if it is
    reached at all, comes right after a [mkdir -p] of the content,
    backup and public-asset directories that returned 0.  When the
    check finds no script, the run is: that [mkdir -p], the check, the
    message on the error stream; the status is 1; the three directories
    exist afterwards; and the file system is the one [mkdir -p] left,
    which differs from the initial one as soon as one of the three was
    missing. *)
Theorem directories_made_before_exporter_check
    (ROOT_DIR : path) (python3 : path → path → path → FS → nat * FS)
    (same_mtime : path → path → bool) (fs : FS)
    (found : bool) :
  TestF (EXPORT_SCRIPT ROOT_DIR) found
    ∈ trace (invoke (run_bear_export ROOT_DIR python3 same_mtime) fs) →
  (∃ rest,
     trace (invoke (run_bear_export ROOT_DIR python3 same_mtime) fs) =
       Mkdir [OUT_DIR ROOT_DIR; BACKUP_DIR ROOT_DIR; PUBLIC_DIR ROOT_DIR] 0
       :: TestF (EXPORT_SCRIPT ROOT_DIR) found :: rest) ∧
  (found = false →
   exit_code (invoke (run_bear_export ROOT_DIR python3 same_mtime) fs) = 1 ∧
   trace (invoke (run_bear_export ROOT_DIR python3 same_mtime) fs) =
     [ Mkdir [OUT_DIR ROOT_DIR; BACKUP_DIR ROOT_DIR; PUBLIC_DIR ROOT_DIR] 0;
       TestF (EXPORT_SCRIPT ROOT_DIR) false;
       Echo Stderr ("bear_export_sync.py not found at " +:+
                    EXPORT_SCRIPT_text ROOT_DIR) ] ∧
   final_world (invoke (run_bear_export ROOT_DIR python3 same_mtime) fs) =
     (mkdir_p [OUT_DIR ROOT_DIR; BACKUP_DIR ROOT_DIR; PUBLIC_DIR ROOT_DIR] fs).2 ∧
   test_d (final_world (invoke (run_bear_export ROOT_DIR python3 same_mtime) fs))
          (OUT_DIR ROOT_DIR) = true ∧
   test_d (final_world (invoke (run_bear_export ROOT_DIR python3 same_mtime) fs))
          (BACKUP_DIR ROOT_DIR) = true ∧
   test_d (final_world (invoke (run_bear_export ROOT_DIR python3 same_mtime) fs))
          (PUBLIC_DIR ROOT_DIR) = true ∧
   (test_d fs (OUT_DIR ROOT_DIR) && test_d fs (BACKUP_DIR ROOT_DIR) &&
    test_d fs (PUBLIC_DIR ROOT_DIR) = false →
    final_world (invoke (run_bear_export ROOT_DIR python3 same_mtime) fs) ≠ fs)).
Proof.
  unfold invoke, run_bear_export, asset_relay, mkdir, run_python3, rsync,
    test_file, test_directory, echo, emit, exit, errexit, mbind, mret,
    sh_bind, sh_ret.
  destruct (mkdir_p _ fs) as [st1 fs1] eqn:Hmk1.
  destruct (succeeded st1) eqn:Hst1; [| reduce; by_position].
  apply succeeded_true in Hst1. subst st1.
  pose proof (mkdir_p_made _ _ _ Hmk1) as Hmade.
  apply Forall_cons_1 in Hmade as [Hout Hmade].
  apply Forall_cons_1 in Hmade as [Hbackup Hmade].
  apply Forall_cons_1 in Hmade as [Hpublic _].
  destruct (test_f fs1 _) eqn:Hfound; reduce.
  - destruct (python3 _ _ _ fs1) as [st2 fs2] eqn:Hpy.
    destruct (succeeded st2) eqn:Hst2; reduce.
    + destruct (test_d fs2 _) eqn:Himages; reduce.
      * destruct (mkdir_p _ fs2) as [st3 fs3].
        destruct (succeeded st3); reduce.
        -- destruct (rsync_r _ _ _ fs3) as [st4 fs4].
           destruct (succeeded st4); reduce; intros Hin;
             (split; [| intros ->; exfalso; by_position]);
             assert (found = true) as -> by by_position; eauto.
        -- intros Hin. split; [| intros ->; exfalso; by_position].
           assert (found = true) as -> by by_position. eauto.
      * reduce. intros Hin. split; [| intros ->; exfalso; by_position].
        assert (found = true) as -> by by_position. eauto.
    + intros Hin. split; [| intros ->; exfalso; by_position].
      assert (found = true) as -> by by_position. eauto.
  - intros Hin. assert (found = false) as -> by by_position.
    split; [eauto |]. intros _. repeat split; try done.
    intros Hmissing <-. by rewrite Hout, Hbackup, Hpublic in Hmissing.
Qed.

Lemma directories_made_before_exporter_check_witness :
  TestF (EXPORT_SCRIPT site) false
    ∈ trace (invoke (run_bear_export site writes_nothing times_differ) no_exporter) ∧
  exit_code (invoke (run_bear_export site writes_nothing times_differ) no_exporter) = 1 ∧
  final_world (invoke (run_bear_export site writes_nothing times_differ) no_exporter)
    ≠ no_exporter.
Proof.
  assert (H : TestF (EXPORT_SCRIPT site) false
                ∈ trace (invoke (run_bear_export site writes_nothing times_differ) no_exporter)).
  { apply (bool_decide_unpack _). vm_compute. exact I. }
  split; [exact H |].
  destruct (directories_made_before_exporter_check
              site writes_nothing times_differ no_exporter false H) as [_ Hmissing].
  destruct (Hmissing eq_refl) as (Hexit & _ & _ & _ & _ & _ & Hchanged).
  split; [exact Hexit |]. apply Hchanged. vm_compute. reflexivity.
Defined.

End ExporterFacts.

(** * Properties of the capture listener *)

Module ListenerFacts.
Import Listener.

(** ** Strings of fixed width *)

Lemma append_length (a b : string) :
  String.length (a +:+ b) = String.length a + String.length b.
Proof. induction a as [| c a IH]; simpl; [done | by rewrite IH]. Qed.

Lemma append_inj_l (a1 a2 b1 b2 : string) :
  String.length a1 = String.length a2 →
  a1 +:+ b1 = a2 +:+ b2 → a1 = a2 ∧ b1 = b2.
Proof.
  revert a2. induction a1 as [| c a1 IH]; intros [| c2 a2] Hlen; simpl in *;
    try discriminate.
  - done.
  - intros [= -> H]. destruct (IH a2) as [-> ->]; [lia | done | done].
Qed.

Lemma append_inj_r (a1 a2 c : string) : a1 +:+ c = a2 +:+ c → a1 = a2.
Proof.
  intros H. apply (append_inj_l a1 a2 c c); [| done].
  apply (f_equal String.length) in H. rewrite !append_length in H. lia.
Qed.

Lemma separator_inj (c : ascii) (x y : string) :
  String c "" +:+ x = String c "" +:+ y → x = y.
Proof. intros H. by injection H. Qed.

Lemma digits_length w n : String.length (digits w n) = w.
Proof.
  induction w as [| w IH]; cbn [digits String.length]; [done | by rewrite IH].
Qed.

Lemma digit_inj a b : digit a = digit b → a mod 10 = b mod 10.
Proof.
  unfold digit. intros H. apply (f_equal nat_of_ascii) in H.
  pose proof (Nat.mod_upper_bound a 10). pose proof (Nat.mod_upper_bound b 10).
  rewrite !nat_ascii_embedding in H by lia. lia.
Qed.

Lemma digits_mod w : ∀ n m, digits w n = digits w m → n mod 10 ^ w = m mod 10 ^ w.
Proof.
  induction w as [| w IH]; intros n m H.
  - change (10 ^ 0) with 1. by rewrite !Nat.mod_1_r.
  - cbn [digits] in H. injection H as Hd Hrest.
    apply digit_inj in Hd. apply IH in Hrest.
    rewrite Nat.pow_succ_r', (Nat.mul_comm 10).
    rewrite !Nat.Div0.mod_mul_r. by rewrite Hd, Hrest.
Qed.

Lemma digits_inj w n m : n < 10 ^ w → m < 10 ^ w → digits w n = digits w m → n = m.
Proof.
  intros Hn Hm H. apply digits_mod in H. by rewrite !Nat.mod_small in H.
Qed.

(** ** Record names *)

Lemma replace_colon_dot_append a b :
  replace_colon_dot (a +:+ b) = replace_colon_dot a +:+ replace_colon_dot b.
Proof. induction a as [| c a IH]; simpl; [done | by rewrite IH]. Qed.

Lemma replace_colon_dot_digit n :
  (if Ascii.eqb (digit n) ":" || Ascii.eqb (digit n) "." then "-"%char else digit n)
  = digit n.
Proof.
  unfold digit. pose proof (Nat.mod_upper_bound n 10 ltac:(lia)) as Hlt.
  destruct (n mod 10) as [|[|[|[|[|[|[|[|[|[| k]]]]]]]]]]; try lia; reflexivity.
Qed.

Lemma replace_colon_dot_digits w n : replace_colon_dot (digits w n) = digits w n.
Proof.
  induction w as [| w IH]; cbn [digits replace_colon_dot]; [done |].
  by rewrite replace_colon_dot_digit, IH.
Qed.

(** The stamp in a record name. *)
Lemma stamp_spelled (t : civil_time) :
  replace_colon_dot (toISOString t) =
  digits 4 (year t) +:+ "-" +:+ digits 2 (month t) +:+ "-" +:+
  digits 2 (day t) +:+ "T" +:+ digits 2 (hour t) +:+ "-" +:+
  digits 2 (minute t) +:+ "-" +:+ digits 2 (second t) +:+ "-" +:+
  digits 3 (millis t) +:+ "Z".
Proof.
  unfold toISOString.
  rewrite !replace_colon_dot_append, !replace_colon_dot_digits. reflexivity.
Qed.

Lemma stamp_length (t : civil_time) :
  String.length (replace_colon_dot (toISOString t)) = 24.
Proof. rewrite stamp_spelled, !append_length, !digits_length. reflexivity. Qed.

Lemma stamp_inj (t1 t2 : civil_time) :
  well_formed_time t1 → well_formed_time t2 →
  replace_colon_dot (toISOString t1) = replace_colon_dot (toISOString t2) →
  t1 = t2.
Proof.
  intros (Hy1 & Hm1 & Hd1 & Hh1 & Hi1 & Hs1 & Hl1)
         (Hy2 & Hm2 & Hd2 & Hh2 & Hi2 & Hs2 & Hl2).
  rewrite !stamp_spelled. intros H.
  repeat (apply append_inj_l in H as [? H];
          [| by rewrite !digits_length]; try apply separator_inj in H).
  destruct t1, t2; cbn [year month day hour minute second millis] in *.
  f_equal;
    match goal with
    | H : digits ?w ?a = digits ?w ?b |- ?a = ?b =>
        apply (digits_inj w a b); [| | exact H]
    end;
    first [ change (10 ^ 2) with 100; lia
          | change (10 ^ 3) with 1000; lia
          | change (10 ^ 4) with (100 * 100); lia ].
Qed.

Lemma record_name_inj (t1 t2 : civil_time) (r1 r2 : request) :
  well_formed_time t1 → well_formed_time t2 →
  record_name t1 r1 = record_name t2 r2 →
  t1 = t2 ∧ method r1 = method r2.
Proof.
  intros Hw1 Hw2 H. unfold record_name in H.
  apply append_inj_l in H as [Hstamp H]; [| by rewrite !stamp_length].
  apply separator_inj, append_inj_r in H.
  split; [by apply stamp_inj | done].
Qed.

(** ** The event loop *)

Section ServerFacts.
Context (debugDir : string).

Lemma serve_snoc (arrivals : list arrival) (a : arrival) (p : process) :
  serve debugDir (arrivals ++ [a]) p = handle debugDir (serve debugDir arrivals p) a.
Proof. unfold serve. apply foldl_snoc. Qed.

Lemma serve_app (l1 l2 : list arrival) (p : process) :
  serve debugDir (l1 ++ l2) p = serve debugDir l2 (serve debugDir l1 p).
Proof. unfold serve. apply foldl_app. Qed.

(** A process that has died stays as it is. *)
Lemma serve_stopped (arrivals : list arrival) (p : process) :
  running p = false → serve debugDir arrivals p = p.
Proof.
  induction arrivals as [| a l IH]; intros Hdead; [done |].
  change (serve debugDir (a :: l) p) with (serve debugDir l (handle debugDir p a)).
  unfold handle. rewrite Hdead. by apply IH.
Qed.

(** The chunks pushed by the 'data' events are the chunks received. *)
Lemma buffered (chunks : list string) : foldl on_data [] chunks = chunks.
Proof.
  induction chunks as [| c l IH] using rev_ind; [done |].
  by rewrite foldl_snoc, IH.
Qed.

(** As long as every write succeeds. *)
Lemma serve_written (arrivals : list arrival) : ∀ p,
  running p = true →
  Forall (λ a, write_fails a = false) arrivals →
  serve debugDir arrivals p =
    Process (foldl write_record (files p) arrivals)
            (effects p ++ flat_map (handled debugDir) arrivals)
            true.
Proof.
  induction arrivals as [| a l IH]; intros p Hrun Hok.
  - simpl. rewrite app_nil_r. by destruct p; simpl in *; subst.
  - apply Forall_cons_1 in Hok as [Ha Hl].
    change (serve debugDir (a :: l) p) with (serve debugDir l (handle debugDir p a)).
    unfold handle, on_end. rewrite Hrun, Ha.
    rewrite IH by done. simpl. by rewrite <- app_assoc.
Qed.

Lemma written_other (l : list arrival) : ∀ (m : gmap string string) (k : string),
  k ∉ map (λ a, record_name (at_time a) (req a)) l →
  foldl write_record m l !! k = m !! k.
Proof.
  induction l as [| a l IH]; intros m k Hk; [done |].
  simpl in *. apply not_elem_of_cons in Hk as [Hne Hk].
  rewrite IH by done. unfold write_record. by rewrite lookup_insert_ne.
Qed.

Lemma written_lookup (l : list arrival) : ∀ (m : gmap string string) (a : arrival),
  NoDup (map (λ a, record_name (at_time a) (req a)) l) →
  a ∈ l →
  foldl write_record m l !! record_name (at_time a) (req a)
    = Some (record_payload (req a)).
Proof.
  induction l as [| x l IH]; intros m a Hnodup Hin; [by apply elem_of_nil in Hin |].
  simpl in *. apply NoDup_cons in Hnodup as [Hfresh Hnodup].
  apply elem_of_cons in Hin as [-> | Hin].
  - rewrite written_other by done. apply lookup_insert_eq.
  - by apply IH.
Qed.

Lemma written_dom (l : list arrival) : ∀ (m : gmap string string),
  dom (foldl write_record m l) =
  list_to_set (map (λ a, record_name (at_time a) (req a)) l) ∪ dom m.
Proof.
  induction l as [| a l IH]; intros m; simpl.
  - symmetry. apply (left_id_L ∅ (∪)).
  - rewrite IH. unfold write_record. rewrite dom_insert_L.
    rewrite (assoc_L (∪)). f_equal. apply (comm_L (∪)).
Qed.

Lemma answered_handled (l : list arrival) :
  answered (flat_map (handled debugDir) l) = map (λ a, (req a, 200)) l.
Proof. induction l as [| a l IH]; simpl; [done | by rewrite <- IH]. Qed.

Lemma bodies_handled (l : list arrival) :
  bodies (flat_map (handled debugDir) l) = map (λ a, (req a, "ok")) l.
Proof. induction l as [| a l IH]; simpl; [done | by rewrite <- IH]. Qed.

(** Names differ as soon as the millisecond or the method does. *)
Lemma record_names_distinct (l : list arrival) :
  Forall (λ a, well_formed_time (at_time a)) l →
  NoDup (map (λ a, (at_time a, method (req a))) l) →
  NoDup (map (λ a, record_name (at_time a) (req a)) l).
Proof.
  induction l as [| a l IH]; intros Hwf Hnodup; simpl; [constructor |].
  apply Forall_cons_1 in Hwf as [Ha Hl].
  simpl in Hnodup. apply NoDup_cons in Hnodup as [Hfresh Hnodup].
  apply NoDup_cons. split; [| by apply IH].
  intros Hin. apply Hfresh.
  apply list_elem_of_fmap in Hin as (b & Hname & Hb).
  apply list_elem_of_fmap. exists b. split; [| done].
  rewrite Forall_forall in Hl.
  destruct (record_name_inj _ _ _ _ Ha (Hl b Hb) Hname) as [-> ->]. done.
Qed.

(** Every response comes two effects after the write of its record. *)
Lemma responses_follow_records (existing : gmap string string) (arrivals : list arrival) :
  ∀ i r st hd,
    effects (serve debugDir arrivals (started existing)) !! i
      = Some (WriteHead r st hd) →
    ∃ j t, i = S (S j) ∧ st = 200 ∧
      effects (serve debugDir arrivals (started existing)) !! j
        = Some (WriteFile (join debugDir (record_name t r)) (record_payload r)).
Proof.
  induction arrivals as [| a l IH] using rev_ind; intros i r st hd.
  - simpl. destruct i as [| [| i]]; simpl; intros [=].
  - rewrite serve_snoc. unfold handle.
    destruct (running (serve debugDir l (started existing))); [| by apply IH].
    unfold on_end. destruct (write_fails a); simpl.
    + intros [Hold | [Hlen Hnew]]%lookup_app_Some.
      * destruct (IH _ _ _ _ Hold) as (j & t & -> & -> & Hj).
        exists j, t. repeat split; [done.. |]. by apply lookup_app_l_Some.
      * destruct (i - _) as [| k]; simpl in Hnew; [discriminate | by destruct k].
    + intros [Hold | [Hlen Hnew]]%lookup_app_Some.
      * destruct (IH _ _ _ _ Hold) as (j & t & -> & -> & Hj).
        exists j, t. repeat split; [done.. |]. by apply lookup_app_l_Some.
      * destruct (i - length _) as [| [| [| [| k]]]] eqn:Hi; simpl in Hnew;
          try discriminate.
        injection Hnew as <- <- <-.
        exists (length (effects (serve debugDir l (started existing)))), (at_time a).
        repeat split; [lia |].
        rewrite lookup_app_r by lia. by rewrite Nat.sub_diag.
Qed.

End ServerFacts.

(** C3, as stated, at two POSTs that end within the same millisecond:
    both are answered with 200, but they share one record name; the
    debug directory holds one file, not two, and it holds the second
    request's record, not the first's. *)
Lemma same_millisecond_overwrites :
  answered (effects (serve debug same_millisecond (started ∅)))
    = [(post "/first" ["1"], 200); (post "/second" ["2"], 200)] ∧
  size (files (serve debug same_millisecond (started ∅))) = 1 ∧
  files (serve debug same_millisecond (started ∅))
    !! record_name noon (post "/first" ["1"])
    = Some (record_payload (post "/second" ["2"])) ∧
  record_payload (post "/second" ["2"]) ≠ record_payload (post "/first" ["1"]).
Proof.
  split; [vm_compute; reflexivity |].
  split; [vm_compute; reflexivity |].
  split; [vm_compute; reflexivity |].
  vm_compute. discriminate.
Qed.

(** C3, amended. For any N requests whose writes succeed and of which
    no two share both the millisecond of their 'end' event and the
    method (times being calendar times in years 0000 to 9999): the N
    record names are pairwise distinct; at the end every one of them
    holds the record of its own request; the debug directory holds
    these N files besides what it held before; and every request got
    status 200 and body "ok". *)
Theorem distinct_stamps_distinct_records
    (debugDir : string) (existing : gmap string string) (arrivals : list arrival) :
  Forall (λ a, write_fails a = false) arrivals →
  Forall (λ a, well_formed_time (at_time a)) arrivals →
  NoDup (map (λ a, (at_time a, method (req a))) arrivals) →
  NoDup (map (λ a, record_name (at_time a) (req a)) arrivals) ∧
  length (map (λ a, record_name (at_time a) (req a)) arrivals) = length arrivals ∧
  (∀ a, a ∈ arrivals →
     files (serve debugDir arrivals (started existing))
       !! record_name (at_time a) (req a) = Some (record_payload (req a))) ∧
  dom (files (serve debugDir arrivals (started existing))) =
    list_to_set (map (λ a, record_name (at_time a) (req a)) arrivals) ∪ dom existing ∧
  answered (effects (serve debugDir arrivals (started existing)))
    = map (λ a, (req a, 200)) arrivals ∧
  bodies (effects (serve debugDir arrivals (started existing)))
    = map (λ a, (req a, "ok")) arrivals ∧
  running (serve debugDir arrivals (started existing)) = true.
Proof.
  intros Hok Hwf Hnodup.
  pose proof (record_names_distinct arrivals Hwf Hnodup) as Hnames.
  rewrite (serve_written debugDir arrivals (started existing) eq_refl Hok).
  cbn [files effects running started].
  split; [done |]. split; [apply length_map |].
  split; [intros a Ha; by apply written_lookup |].
  split; [apply written_dom |].
  unfold answered, bodies. rewrite !omap_app.
  split; [apply answered_handled | split; [apply bodies_handled | done]].
Qed.

Lemma distinct_stamps_distinct_records_witness :
  NoDup (map (λ a, record_name (at_time a) (req a)) told_apart) ∧
  size (files (serve debug told_apart (started ∅))) = 3 ∧
  answered (effects (serve debug told_apart (started ∅)))
    = map (λ a, (req a, 200)) told_apart.
Proof.
  assert (Hok : Forall (λ a, write_fails a = false) told_apart).
  { apply (bool_decide_unpack _). vm_compute. exact I. }
  assert (Hwf : Forall (λ a, well_formed_time (at_time a)) told_apart).
  { apply (bool_decide_unpack _). vm_compute. exact I. }
  assert (Hnodup : NoDup (map (λ a, (at_time a, method (req a))) told_apart)).
  { apply (bool_decide_unpack _). vm_compute. exact I. }
  destruct (distinct_stamps_distinct_records debug ∅ told_apart Hok Hwf Hnodup)
    as (Hnames & _ & _ & _ & Hanswered & _).
  split; [exact Hnames |]. split; [vm_compute; reflexivity | exact Hanswered].
Defined.

(** C5, as stated, at a request whose record cannot be written (and
    one that ends a second later): the process is no longer running,
    no request was answered, no body was sent, and nothing was logged
    beyond the two lines printed at startup. *)
Lemma write_failure_is_not_survived :
  running (serve debug disk_full_once (started ∅)) = false ∧
  answered (effects (serve debug disk_full_once (started ∅))) = [] ∧
  bodies (effects (serve debug disk_full_once (started ∅))) = [] ∧
  logs (effects (serve debug disk_full_once (started ∅)))
    = logs (effects (started ∅)).
Proof. repeat split; vm_compute; reflexivity. Qed.

(** C5, amended. If writing a request's record fails while the
    listener is running, the exception of [writeFileSync] is not
    caught: the process stops running, the only effect is the uncaught
    exception, no file is written, no response is sent and nothing is
    logged for that request, and no later request is handled. *)
Theorem write_failure_ends_listener
    (debugDir : string) (existing : gmap string string)
    (arrivals : list arrival) (a : arrival) (later : list arrival) :
  running (serve debugDir arrivals (started existing)) = true →
  write_fails a = true →
  running (serve debugDir (arrivals ++ a :: later) (started existing)) = false ∧
  effects (serve debugDir (arrivals ++ a :: later) (started existing)) =
    effects (serve debugDir arrivals (started existing)) ++
    [Uncaught (join debugDir (record_name (at_time a) (req a)))] ∧
  files (serve debugDir (arrivals ++ a :: later) (started existing)) =
    files (serve debugDir arrivals (started existing)) ∧
  answered (effects (serve debugDir (arrivals ++ a :: later) (started existing))) =
    answered (effects (serve debugDir arrivals (started existing))) ∧
  bodies (effects (serve debugDir (arrivals ++ a :: later) (started existing))) =
    bodies (effects (serve debugDir arrivals (started existing))) ∧
  logs (effects (serve debugDir (arrivals ++ a :: later) (started existing))) =
    logs (effects (serve debugDir arrivals (started existing))).
Proof.
  intros Hrun Hfail. rewrite serve_app.
  change (serve debugDir (a :: later) ?p)
    with (serve debugDir later (handle debugDir p a)).
  unfold handle. rewrite Hrun. unfold on_end. rewrite Hfail.
  rewrite serve_stopped by done. cbn [running effects files].
  unfold answered, bodies, logs. rewrite !omap_app. simpl.
  by rewrite !app_nil_r.
Qed.

Lemma write_failure_ends_listener_witness :
  running (serve debug [] (started ∅)) = true ∧
  running (serve debug disk_full_once (started ∅)) = false ∧
  answered (effects (serve debug disk_full_once (started ∅))) = [].
Proof.
  assert (Hrun : running (serve debug [] (started ∅)) = true) by reflexivity.
  destruct (write_failure_ends_listener debug ∅ []
              (Arrival (callback "/a") noon true)
              [Arrival (callback "/b") (CivilTime 2026 2 3 12 0 1 0) false]
              Hrun eq_refl) as (Hdead & _ & _ & Hanswered & _).
  split; [exact Hrun |]. split; [exact Hdead | exact Hanswered].
Defined.

(** C10. Whenever a request ends while the listener is running and
    its write succeeds, the handler does four things in this order:
    it writes the record file, it logs, it sends status 200, it sends
    the body.  The record is [JSON.stringify] (indent 2) of the
    object with exactly the keys method, url, headers and body, the
    body being the UTF-8 decoding of all the chunks received,
    concatenated; the file holds it when the handler returns.  And in
    the whole life of the listener every status line of a response
    comes two effects after the write of that request's record. *)
Theorem record_persisted_before_response
    (debugDir : string) (existing : gmap string string)
    (arrivals : list arrival) (a : arrival) :
  running (serve debugDir arrivals (started existing)) = true →
  write_fails a = false →
  effects (serve debugDir (arrivals ++ [a]) (started existing)) =
    effects (serve debugDir arrivals (started existing)) ++
    [ WriteFile (join debugDir (record_name (at_time a) (req a)))
                (record_payload (req a));
      ConsoleLog ("Saved callback payload → " +:+
                  join debugDir (record_name (at_time a) (req a)));
      WriteHead (req a) 200 [("Content-Type", "text/plain")];
      EndResponse (req a) "ok" ] ∧
  record_payload (req a) =
    JSON_stringify
      (JObject [ ("method", JString (method (req a)));
                 ("url", JString (url (req a)));
                 ("headers", JObject (headers (req a)));
                 ("body", JString (toString_utf8
                                     (String.concat "" (data (req a))))) ]) ∧
  files (serve debugDir (arrivals ++ [a]) (started existing))
    !! record_name (at_time a) (req a) = Some (record_payload (req a)) ∧
  ∀ i r st hd,
    effects (serve debugDir (arrivals ++ [a]) (started existing)) !! i
      = Some (WriteHead r st hd) →
    ∃ j t, i = S (S j) ∧ st = 200 ∧
      effects (serve debugDir (arrivals ++ [a]) (started existing)) !! j
        = Some (WriteFile (join debugDir (record_name t r)) (record_payload r)).
Proof.
  intros Hrun Hok. split; [| split; [| split]].
  - rewrite serve_snoc. unfold handle, on_end. by rewrite Hrun, Hok.
  - unfold record_payload, body_of. by rewrite buffered.
  - rewrite serve_snoc. unfold handle, on_end. rewrite Hrun, Hok.
    apply lookup_insert_eq.
  - apply responses_follow_records.
Qed.

Lemma record_persisted_before_response_witness :
  running (serve debug [] (started ∅)) = true ∧
  files (serve debug ([] ++ [Arrival (post "/cb" ["{"; "}"]) noon false])
               (started ∅))
    !! "2026-02-03T12-00-00-007Z-POST.log"
    = Some (record_payload (post "/cb" ["{"; "}"])).
Proof.
  assert (Hrun : running (serve debug [] (started ∅)) = true) by reflexivity.
  split; [exact Hrun |].
  exact (proj1 (proj2 (proj2
    (record_persisted_before_response debug ∅ []
       (Arrival (post "/cb" ["{"; "}"]) noon false) Hrun eq_refl)))).
Defined.

End ListenerFacts.

(** * Further properties of the orchestrator *)

Module OrchestratorMore.
Import Orchestrator ShellFacts OrchestratorFacts Readings.

(** X1. If [git commit] fails, the run ends there: status 1,
    "[auto-sync] git commit failed" is the last thing written, on the
    error stream, [git add docs] had returned 0 and [git push] is not
    invoked. *)
Theorem commit_failure_stops_before_push {World} (E : Executor World) (w : World)
    (msg : string) (st : nat) :
  st ≠ 0 →
  Ran (GitCommit msg) st ∈ trace (pipeline E w) →
  exit_code (pipeline E w) = 1 ∧
  last (trace (pipeline E w)) = Some (Echo Stderr "[auto-sync] git commit failed") ∧
  ran (GitAdd "docs") (trace (pipeline E w)) = [0] ∧
  commits (trace (pipeline E w)) = [(msg, st)] ∧
  ran GitPush (trace (pipeline E w)) = [].
Proof.
  intros Hne. open_script. walk; intros Hin;
    rewrite ?elem_of_cons, elem_of_nil in Hin; destruct_or!; simplify_eq.
  by repeat split.
Qed.

Lemma commit_failure_stops_before_push_witness :
  Ran (GitCommit "Auto update notes 2026-11-01 09:30:05") 1
    ∈ trace (pipeline (scripted commit_fails a_sunday) tt) ∧
  ran GitPush (trace (pipeline (scripted commit_fails a_sunday) tt)) = [].
Proof.
  assert (H : Ran (GitCommit "Auto update notes 2026-11-01 09:30:05") 1
                ∈ trace (pipeline (scripted commit_fails a_sunday) tt)).
  { apply (bool_decide_unpack _). vm_compute. exact I. }
  split; [exact H |].
  destruct (commit_failure_stops_before_push (scripted commit_fails a_sunday) tt
              _ 1 ltac:(discriminate) H) as (_ & _ & _ & _ & Hpush).
  exact Hpush.
Defined.

(** X2. If [git push] fails, the status is 1 and "[auto-sync] git push
    failed" is the last thing written, on the error stream; the commit
    made just before stays: exactly one [git commit] ran, it returned
    0, and nothing is invoked after the push. *)
Theorem push_failure_leaves_the_commit {World} (E : Executor World) (w : World)
    (st : nat) :
  st ≠ 0 →
  Ran GitPush st ∈ trace (pipeline E w) →
  exit_code (pipeline E w) = 1 ∧
  last (trace (pipeline E w)) = Some (Echo Stderr "[auto-sync] git push failed") ∧
  (∃ msg, commits (trace (pipeline E w)) = [(msg, 0)]) ∧
  ran GitPush (trace (pipeline E w)) = [st].
Proof.
  intros Hne. open_script. walk; intros Hin;
    rewrite ?elem_of_cons, elem_of_nil in Hin; destruct_or!; simplify_eq.
  repeat split; eauto.
Qed.

Lemma push_failure_leaves_the_commit_witness :
  Ran GitPush 1 ∈ trace (pipeline (scripted push_fails a_sunday) tt) ∧
  exit_code (pipeline (scripted push_fails a_sunday) tt) = 1.
Proof.
  assert (H : Ran GitPush 1 ∈ trace (pipeline (scripted push_fails a_sunday) tt)).
  { apply (bool_decide_unpack _). vm_compute. exact I. }
  split; [exact H |].
  exact (proj1 (push_failure_leaves_the_commit (scripted push_fails a_sunday) tt
                  1 ltac:(discriminate) H)).
Defined.

(** X3. Whatever the environment answers, the commands of a run are an
    initial part of the fixed order resolve, cd, sync-bear, build, cd,
    diff, add, commit, push: no stage is skipped, repeated or retried,
    and the commit message is the only thing that varies. *)
Theorem commands_follow_the_stages {World} (E : Executor World) (w : World) :
  ∃ msg, commands (trace (pipeline E w)) `prefix_of` stages msg.
Proof.
  open_script. walk;
    first [ exists "" ; by eexists
          | eexists; by eexists ].
Qed.

(** X4. The status is 0 exactly when the last line written is
    "[auto-sync] done" or the no-op line. *)
Theorem exit_zero_iff_done_or_noop {World} (E : Executor World) (w : World) :
  exit_code (pipeline E w) = 0 ↔
  last (trace (pipeline E w)) = Some (Echo Stdout "[auto-sync] done") ∨
  last (trace (pipeline E w)) =
    Some (Echo Stdout "[auto-sync] no changes in docs, nothing to commit").
Proof.
  open_script. walk; (split; [intros H | intros [H | H]]);
    try discriminate; try lia; auto.
Qed.

(** X5. Every line the script writes carries the tag "[auto-sync] ";
    a line on the error stream is written only as the last event of a
    run whose status is 1. *)
Theorem lines_are_tagged {World} (E : Executor World) (w : World)
    (fd : stream) (line : string) :
  Echo fd line ∈ trace (pipeline E w) →
  String.prefix "[auto-sync] " line = true ∧
  (fd = Stderr →
   exit_code (pipeline E w) = 1 ∧
   last (trace (pipeline E w)) = Some (Echo Stderr line)).
Proof.
  open_script. walk; intros Hin;
    rewrite ?elem_of_cons, elem_of_nil in Hin; destruct_or!; simplify_eq;
    (split; [reflexivity | intros Hfd; try discriminate; by split]).
Qed.

Lemma lines_are_tagged_witness :
  Echo Stderr "[auto-sync] build FAILED"
    ∈ trace (pipeline (scripted build_fails a_sunday) tt) ∧
  exit_code (pipeline (scripted build_fails a_sunday) tt) = 1.
Proof.
  assert (H : Echo Stderr "[auto-sync] build FAILED"
                ∈ trace (pipeline (scripted build_fails a_sunday) tt)).
  { apply (bool_decide_unpack _). vm_compute. exact I. }
  split; [exact H |].
  exact (proj1 (proj2 (lines_are_tagged (scripted build_fails a_sunday) tt _ _ H)
                  eq_refl)).
Defined.

(** X6. When [git add docs] fails, [set -e] ends the script with the
    status of [git add] itself, whatever it is; nothing is written on
    the error stream and neither commit nor push is invoked. *)
Theorem git_add_failure_status {World} (E : Executor World) (w : World) (st : nat) :
  st ≠ 0 →
  Ran (GitAdd "docs") st ∈ trace (pipeline E w) →
  exit_code (pipeline E w) = st ∧
  last (trace (pipeline E w)) = Some (Ran (GitAdd "docs") st) ∧
  lines Stderr (trace (pipeline E w)) = [] ∧
  commits (trace (pipeline E w)) = [] ∧
  ran GitPush (trace (pipeline E w)) = [].
Proof.
  intros Hne. open_script. walk; intros Hin;
    rewrite ?elem_of_cons, elem_of_nil in Hin; destruct_or!; simplify_eq.
  by repeat split.
Qed.

Lemma git_add_failure_status_witness :
  Ran (GitAdd "docs") 128 ∈ trace (pipeline (scripted add_fails a_sunday) tt) ∧
  exit_code (pipeline (scripted add_fails a_sunday) tt) = 128.
Proof.
  assert (H : Ran (GitAdd "docs") 128
                ∈ trace (pipeline (scripted add_fails a_sunday) tt)).
  { apply (bool_decide_unpack _). vm_compute. exact I. }
  split; [exact H |].
  exact (proj1 (git_add_failure_status (scripted add_fails a_sunday) tt
                  128 ltac:(discriminate) H)).
Defined.

(** X21. The status of a run is 0, or 1, or else the non-zero status
    of one of the five commands that are not guarded by an [if]: the
    [date] whose output is assigned to the commit message (line 35), or
    one of resolving the root, the two [cd] and [git add docs].  The
    failure is then the last event of the run and the script wrote
    nothing on the error stream.  The [date] of line 35 is such a
    source: where it is missing (status 127) and docs differ, the run
    ends with 127, before [git add]. *)
Theorem exit_status_sources {World} (E : Executor World) (w : World) :
  (exit_code (pipeline E w) = 0 ∨ exit_code (pipeline E w) = 1 ∨
   (exit_code (pipeline E w) ≠ 0 ∧
    lines Stderr (trace (pipeline E w)) = [] ∧
    (last (trace (pipeline E w)) = Some (DateFailed (exit_code (pipeline E w))) ∨
     ∃ c, c ∈ [ResolveRootDir; CdRootDir; CdRootParent; GitAdd "docs"] ∧
          last (trace (pipeline E w)) = Some (Ran c (exit_code (pipeline E w)))))) ∧
  (exit_code (pipeline date_missing tt) = 127 ∧
   last (trace (pipeline date_missing tt)) = Some (DateFailed 127) ∧
   ran (GitDiffQuiet "docs") (trace (pipeline date_missing tt)) = [1] ∧
   ran (GitAdd "docs") (trace (pipeline date_missing tt)) = []).
Proof.
  split; [| by repeat split].
  open_script. walk; auto;
    right; right; (split; [eassumption |]); (split; [reflexivity |]);
    first [ by left
          | right; eexists; (split; [| reflexivity]); by_position ].
Qed.

End OrchestratorMore.

(** * Further properties of the exporter adapter and the asset relay *)

Module ExporterMore.
Import Exporter ShellFacts ExporterFacts Readings.


(** ** More on [mkdir -p] *)



Lemma mkdir_p_status ps : ∀ (fs fs' : FS) st,
  mkdir_p ps fs = (st, fs') → st = 0 ∨ st = 1.
Proof.
  induction ps as [| p ps IH]; intros fs fs' st Hmk; simpl in Hmk.
  - injection Hmk as <- _. by left.
  - destruct (mkdir_from [] p fs) as [ok fs1].
    destruct (mkdir_p ps fs1) as [st2 fs2] eqn:H2.
    injection Hmk as <- _. destruct ok; [by eapply IH | by right].
Qed.

(** ** The two image folders lie apart *)


(** ** The relay, step by step *)





(** ** Every path through the script *)

Lemma run_bear_export_paths
    (ROOT_DIR : path) (python3 : path → path → path → FS → nat * FS)
    (same_mtime : path → path → bool) (fs : FS) :
  ∃ st1 fs1,
    mkdir_p [OUT_DIR ROOT_DIR; BACKUP_DIR ROOT_DIR; PUBLIC_DIR ROOT_DIR] fs = (st1, fs1) ∧
    ((st1 ≠ 0 ∧
      invoke (run_bear_export ROOT_DIR python3 same_mtime) fs =
        RunResult st1 fs1
          [Mkdir [OUT_DIR ROOT_DIR; BACKUP_DIR ROOT_DIR; PUBLIC_DIR ROOT_DIR] st1]) ∨
     (st1 = 0 ∧ test_f fs1 (EXPORT_SCRIPT ROOT_DIR) = false ∧
      invoke (run_bear_export ROOT_DIR python3 same_mtime) fs =
        RunResult 1 fs1
          [Mkdir [OUT_DIR ROOT_DIR; BACKUP_DIR ROOT_DIR; PUBLIC_DIR ROOT_DIR] 0;
           TestF (EXPORT_SCRIPT ROOT_DIR) false;
           Echo Stderr ("bear_export_sync.py not found at " +:+
                        EXPORT_SCRIPT_text ROOT_DIR)]) ∨
     (st1 = 0 ∧ test_f fs1 (EXPORT_SCRIPT ROOT_DIR) = true ∧
      ∃ st2 fs2,
        python3 (EXPORT_SCRIPT ROOT_DIR) (OUT_DIR ROOT_DIR) (BACKUP_DIR ROOT_DIR) fs1
          = (st2, fs2) ∧
        ∃ steps,
          invoke (run_bear_export ROOT_DIR python3 same_mtime) fs =
            RunResult (exit_code (invoke (run_bear_export ROOT_DIR python3 same_mtime) fs))
                      (final_world (invoke (run_bear_export ROOT_DIR python3 same_mtime) fs))
              ([Mkdir [OUT_DIR ROOT_DIR; BACKUP_DIR ROOT_DIR; PUBLIC_DIR ROOT_DIR] 0;
                TestF (EXPORT_SCRIPT ROOT_DIR) true;
                Python3 (EXPORT_SCRIPT ROOT_DIR) (OUT_DIR ROOT_DIR)
                        (BACKUP_DIR ROOT_DIR) st2] ++ steps) ∧
          ((st2 ≠ 0 ∧ steps = [] ∧
            exit_code (invoke (run_bear_export ROOT_DIR python3 same_mtime) fs) = st2 ∧
            final_world (invoke (run_bear_export ROOT_DIR python3 same_mtime) fs) = fs2) ∨
           (st2 = 0 ∧
            steps = trace (invoke (asset_relay ROOT_DIR same_mtime) fs2) ∧
            exit_code (invoke (run_bear_export ROOT_DIR python3 same_mtime) fs)
              = exit_code (invoke (asset_relay ROOT_DIR same_mtime) fs2) ∧
            final_world (invoke (run_bear_export ROOT_DIR python3 same_mtime) fs)
              = final_world (invoke (asset_relay ROOT_DIR same_mtime) fs2))))).
Proof.
  unfold invoke, run_bear_export, asset_relay, mkdir, run_python3, rsync,
    test_file, test_directory, echo, emit, exit, errexit, mbind, mret,
    sh_bind, sh_ret.
  destruct (mkdir_p _ fs) as [st1 fs1] eqn:Hmk1. exists st1, fs1.
  split; [done |].
  destruct (succeeded st1) eqn:Hst1; reduce.
  2: { left. split; [by apply succeeded_false | done]. }
  apply succeeded_true in Hst1. subst st1. right.
  destruct (test_f fs1 _) eqn:Hfound; reduce; [right | by left].
  repeat split.
  destruct (python3 _ _ _ fs1) as [st2 fs2] eqn:Hpy. exists st2, fs2.
  split; [done |].
  destruct (succeeded st2) eqn:Hst2; reduce.
  2: { exists []. split; [done |]. left. by apply succeeded_false in Hst2. }
  apply succeeded_true in Hst2. subst st2.
  destruct (test_d fs2 _) eqn:Himages; reduce.
  2: { eexists. split; [reflexivity |]. right. by repeat split. }
  destruct (mkdir_p _ fs2) as [st3 fs3] eqn:Hmk2.
  destruct (succeeded st3) eqn:Hst3; reduce.
  2: { eexists. split; [reflexivity |]. right. by repeat split. }
  destruct (rsync_r _ _ _ fs3) as [st4 fs4] eqn:Hrs.
  destruct (succeeded st4) eqn:Hst4; reduce;
    (eexists; split; [reflexivity |]; right; by repeat split).
Qed.

(** The relay alone never runs the exporter nor the exporter check. *)
Lemma asset_relay_events (ROOT_DIR : path) (same_mtime : path → path → bool)
    (fs : FS) (e : event) :
  e ∈ trace (invoke (asset_relay ROOT_DIR same_mtime) fs) →
  match e with
  | TestD p _ => p = OUT_DIR ROOT_DIR ++ ["BearImages"]
  | Mkdir ds _ => ds = [PUBLIC_DIR ROOT_DIR ++ ["BearImages"]]
  | Rsync s d _ => s = OUT_DIR ROOT_DIR ++ ["BearImages"] ∧
                   d = PUBLIC_DIR ROOT_DIR ++ ["BearImages"] ∧
                   test_d fs (OUT_DIR ROOT_DIR ++ ["BearImages"]) = true
  | _ => False
  end.
Proof.
  unfold invoke, asset_relay, mkdir, rsync, test_directory, errexit,
    mbind, mret, sh_bind, sh_ret.
  destruct (test_d fs _) eqn:Himages; reduce.
  - destruct (mkdir_p _ fs) as [st3 fs3].
    destruct (succeeded st3); reduce.
    + destruct (rsync_r _ _ _ fs3) as [st4 fs4].
      destruct (succeeded st4); reduce; intros Hin;
        rewrite ?elem_of_cons, elem_of_nil in Hin; destruct_or!; by subst e.
    + intros Hin. rewrite ?elem_of_cons, elem_of_nil in Hin.
      destruct_or!; by subst e.
  - intros Hin. rewrite ?elem_of_cons, elem_of_nil in Hin.
    destruct_or!; by subst e.
Qed.

(** X8. The exporter is run only after the check found its script and
    after [mkdir -p] made the content, backup and public-asset
    directories: it is called with the script, [--out] the content
    directory and [--backup] the backup directory, in a file system
    where the script is a regular file and the three directories
    exist. *)
Theorem exporter_runs_in_prepared_directories
    (ROOT_DIR : path) (python3 : path → path → path → FS → nat * FS)
    (same_mtime : path → path → bool) (fs : FS)
    (script out backup : path) (st : nat) :
  Python3 script out backup st
    ∈ trace (invoke (run_bear_export ROOT_DIR python3 same_mtime) fs) →
  script = EXPORT_SCRIPT ROOT_DIR ∧ out = OUT_DIR ROOT_DIR ∧
  backup = BACKUP_DIR ROOT_DIR ∧
  ∃ fs1,
    mkdir_p [OUT_DIR ROOT_DIR; BACKUP_DIR ROOT_DIR; PUBLIC_DIR ROOT_DIR] fs = (0, fs1) ∧
    test_f fs1 (EXPORT_SCRIPT ROOT_DIR) = true ∧
    test_d fs1 (OUT_DIR ROOT_DIR) = true ∧
    test_d fs1 (BACKUP_DIR ROOT_DIR) = true ∧
    test_d fs1 (PUBLIC_DIR ROOT_DIR) = true ∧
    (python3 script out backup fs1).1 = st.
Proof.
  destruct (run_bear_export_paths ROOT_DIR python3 same_mtime fs)
    as (st1 & fs1 & Hmk & [(_ & ->) | [(_ & _ & ->) | (-> & Hfound & Hrest)]]);
    simpl; intros Hin.
  - by_position.
  - by_position.
  - destruct Hrest as (st2 & fs2 & Hpy & steps & Hrun & Hsteps).
    rewrite Hrun in Hin. simpl in Hin.
    assert (Hhere : Python3 script out backup st =
                    Python3 (EXPORT_SCRIPT ROOT_DIR) (OUT_DIR ROOT_DIR)
                            (BACKUP_DIR ROOT_DIR) st2).
    { rewrite !elem_of_cons in Hin.
      destruct Hin as [Hin | [Hin | [Hin | Hin]]]; try discriminate; [done |].
      destruct Hsteps as [(_ & -> & _) | (_ & -> & _)].
      - by apply elem_of_nil in Hin.
      - by apply asset_relay_events in Hin. }
    injection Hhere as -> -> -> ->.
    pose proof (mkdir_p_made _ _ _ Hmk) as Hmade.
    apply Forall_cons_1 in Hmade as [Hout Hmade].
    apply Forall_cons_1 in Hmade as [Hbackup Hmade].
    apply Forall_cons_1 in Hmade as [Hpublic _].
    repeat split; try done. exists fs1. by rewrite Hpy.
Qed.

Lemma exporter_runs_in_prepared_directories_witness :
  Python3 (EXPORT_SCRIPT site) (OUT_DIR site) (BACKUP_DIR site) 0
    ∈ trace (invoke (run_bear_export site writes_an_image times_differ) checkout) ∧
  ∃ fs1, test_f fs1 (EXPORT_SCRIPT site) = true ∧ test_d fs1 (OUT_DIR site) = true.
Proof.
  assert (H : Python3 (EXPORT_SCRIPT site) (OUT_DIR site) (BACKUP_DIR site) 0
                ∈ trace (invoke (run_bear_export site writes_an_image times_differ) checkout)).
  { apply (bool_decide_unpack _). vm_compute. exact I. }
  split; [exact H |].
  destruct (exporter_runs_in_prepared_directories site writes_an_image times_differ
              checkout
              _ _ _ _ H) as (_ & _ & _ & fs1 & _ & Hf & Hd & _).
  exists fs1. by split.
Defined.

(** X9. When the exporter fails, [set -e] ends the script with the
    exporter's own status; the relay is not attempted (no test for the
    image folder, no [rsync]) and the file system is left as the
    exporter left it. *)
Theorem exporter_failure_skips_the_relay
    (ROOT_DIR : path) (python3 : path → path → path → FS → nat * FS)
    (same_mtime : path → path → bool) (fs : FS)
    (script out backup : path) (st : nat) :
  st ≠ 0 →
  Python3 script out backup st
    ∈ trace (invoke (run_bear_export ROOT_DIR python3 same_mtime) fs) →
  exit_code (invoke (run_bear_export ROOT_DIR python3 same_mtime) fs) = st ∧
  last (trace (invoke (run_bear_export ROOT_DIR python3 same_mtime) fs))
    = Some (Python3 script out backup st) ∧
  (∀ p found, TestD p found ∉ trace (invoke (run_bear_export ROOT_DIR python3 same_mtime) fs)) ∧
  (∀ s d st', Rsync s d st' ∉ trace (invoke (run_bear_export ROOT_DIR python3 same_mtime) fs)) ∧
  ∃ fs1,
    mkdir_p [OUT_DIR ROOT_DIR; BACKUP_DIR ROOT_DIR; PUBLIC_DIR ROOT_DIR] fs = (0, fs1) ∧
    final_world (invoke (run_bear_export ROOT_DIR python3 same_mtime) fs)
      = (python3 script out backup fs1).2.
Proof.
  intros Hne.
  destruct (run_bear_export_paths ROOT_DIR python3 same_mtime fs)
    as (st1 & fs1 & Hmk & [(_ & ->) | [(_ & _ & ->) | (-> & Hfound & Hrest)]]);
    simpl; intros Hin.
  - by_position.
  - by_position.
  - destruct Hrest as (st2 & fs2 & Hpy & steps & Hrun & Hsteps).
    rewrite Hrun in Hin. simpl in Hin.
    assert (Hhere : Python3 script out backup st =
                    Python3 (EXPORT_SCRIPT ROOT_DIR) (OUT_DIR ROOT_DIR)
                            (BACKUP_DIR ROOT_DIR) st2).
    { rewrite !elem_of_cons in Hin.
      destruct Hin as [Hin | [Hin | [Hin | Hin]]]; try discriminate; [done |].
      destruct Hsteps as [(_ & -> & _) | (_ & -> & _)].
      - by apply elem_of_nil in Hin.
      - by apply asset_relay_events in Hin. }
    injection Hhere as -> -> -> ->.
    destruct Hsteps as [(_ & -> & Hexit & Hfinal) | (-> & _)]; [| done].
    rewrite Hrun. simpl. rewrite Hexit.
    repeat split; try done.
    + intros p found Hp. simpl in Hp. by_position.
    + intros s d st' Hp. simpl in Hp. by_position.
    + exists fs1. split; [done |]. by rewrite Hfinal, Hpy.
Qed.

Lemma exporter_failure_skips_the_relay_witness :
  Python3 (EXPORT_SCRIPT site) (OUT_DIR site) (BACKUP_DIR site) 2
    ∈ trace (invoke (run_bear_export site crashes times_differ) checkout) ∧
  exit_code (invoke (run_bear_export site crashes times_differ) checkout) = 2.
Proof.
  assert (H : Python3 (EXPORT_SCRIPT site) (OUT_DIR site) (BACKUP_DIR site) 2
                ∈ trace (invoke (run_bear_export site crashes times_differ) checkout)).
  { apply (bool_decide_unpack _). vm_compute. exact I. }
  split; [exact H |].
  exact (proj1 (exporter_failure_skips_the_relay site crashes times_differ checkout
                  _ _ _ 2 ltac:(discriminate) H)).
Defined.

(** X10. In a run of the whole script that ends with status 0 after
    [rsync] ran, the relay has read what the exporter wrote: every
    regular file the exporter left below src/content/notes/BearImages is
    at the end a regular file at the same relative path below
    public/BearImages, with the same bytes unless the quick check
    passed over it (a regular file of the same size and modification
    time was there when the exporter returned, and it keeps its bytes);
    and nothing the exporter left has disappeared. *)
Theorem exported_images_reach_public
    (ROOT_DIR : path) (python3 : path → path → path → FS → nat * FS)
    (same_mtime : path → path → bool) (fs : FS)
    (src dst : path) (st : nat) :
  exit_code (invoke (run_bear_export ROOT_DIR python3 same_mtime) fs) = 0 →
  Rsync src dst st ∈ trace (invoke (run_bear_export ROOT_DIR python3 same_mtime) fs) →
  ∃ fs1 fs2,
    mkdir_p [OUT_DIR ROOT_DIR; BACKUP_DIR ROOT_DIR; PUBLIC_DIR ROOT_DIR] fs = (0, fs1) ∧
    python3 (EXPORT_SCRIPT ROOT_DIR) (OUT_DIR ROOT_DIR) (BACKUP_DIR ROOT_DIR) fs1
      = (0, fs2) ∧
    (∀ rel bytes,
       fs2 !! ((OUT_DIR ROOT_DIR ++ ["BearImages"]) ++ rel) = Some (File bytes) →
       final_world (invoke (run_bear_export ROOT_DIR python3 same_mtime) fs)
         !! ((PUBLIC_DIR ROOT_DIR ++ ["BearImages"]) ++ rel) =
       match fs2 !! ((PUBLIC_DIR ROOT_DIR ++ ["BearImages"]) ++ rel) with
       | Some (File old) =>
           if (String.length bytes =? String.length old)%nat
              && same_mtime ((OUT_DIR ROOT_DIR ++ ["BearImages"]) ++ rel)
                            ((PUBLIC_DIR ROOT_DIR ++ ["BearImages"]) ++ rel)
           then Some (File old) else Some (File bytes)
       | _ => Some (File bytes)
       end) ∧
    (∀ p, is_Some (fs2 !! p) →
          is_Some (final_world (invoke (run_bear_export ROOT_DIR python3 same_mtime) fs)
                     !! p)).
Proof.
  intros Hexit.
  destruct (run_bear_export_paths ROOT_DIR python3 same_mtime fs)
    as (st1 & fs1 & Hmk & [(_ & Hrun) | [(_ & _ & Hrun) | (-> & Hfound & Hrest)]]).
  - rewrite Hrun. simpl. by_position.
  - rewrite Hrun. simpl. by_position.
  - destruct Hrest as (st2 & fs2 & Hpy & steps & Hrun & Hsteps).
    destruct Hsteps as [(_ & -> & _) | (-> & -> & Hexit' & Hfinal)].
    { rewrite Hrun. simpl. by_position. }
    rewrite Hexit' in Hexit. rewrite Hfinal.
    intros Hin. rewrite Hrun in Hin. simpl in Hin.
    rewrite !elem_of_cons in Hin.
    destruct Hin as [Hin | [Hin | [Hin | Hin]]]; try discriminate.
    apply asset_relay_events in Hin as (_ & _ & Himages).
    destruct (asset_relay_steps ROOT_DIR same_mtime fs2 Himages Hexit)
      as (fs3 & Hmk3 & Hrs & _).
    exists fs1, fs2. repeat split; try done.
    + intros rel bytes Hfile.
      assert (rel ≠ []).
      { intros ->. rewrite app_nil_r in Hfile.
        apply test_d_lookup in Himages; [congruence |].
        unfold OUT_DIR. by destruct ROOT_DIR. }
      rewrite (rsync_r_lookup _ _ _ _ _ _ Hrs), inside_app by done.
      rewrite (mkdir_p_keeps _ _ _ _ _ _ Hmk3 Hfile). unfold quick_check.
      rewrite (relay_mkdir_keeps_below ROOT_DIR fs2 fs3 0 rel Hmk3) by done.
      destruct (fs2 !! ((PUBLIC_DIR ROOT_DIR ++ ["BearImages"]) ++ rel))
        as [[old |] |]; [| done | done].
      by destruct (_ && same_mtime _ _).
    + intros p [n Hp]. apply (mkdir_p_keeps _ _ _ _ _ _ Hmk3) in Hp.
      rewrite (rsync_r_lookup _ _ _ _ _ _ Hrs).
      destruct (inside _ p) as [rel |].
      * destruct (fs3 !! (_ ++ rel)); [| by rewrite Hp].
        destruct (quick_check _ _ _ _ _); [by rewrite Hp | done].
      * case_decide; [done | by rewrite Hp].
Qed.

Lemma exported_images_reach_public_witness :
  exit_code (invoke (run_bear_export site writes_an_image times_differ) checkout) = 0 ∧
  final_world (invoke (run_bear_export site writes_an_image times_differ) checkout)
    !! ((PUBLIC_DIR site ++ ["BearImages"]) ++ ["a.png"]) = Some (File "PNG-bytes").
Proof.
  assert (H0 : exit_code (invoke (run_bear_export site writes_an_image times_differ)
                            checkout) = 0)
    by (vm_compute; reflexivity).
  assert (H1 : Rsync (OUT_DIR site ++ ["BearImages"]) (PUBLIC_DIR site ++ ["BearImages"]) 0
                 ∈ trace (invoke (run_bear_export site writes_an_image times_differ)
                            checkout)).
  { apply (bool_decide_unpack _). vm_compute. exact I. }
  split; [exact H0 |].
  destruct (exported_images_reach_public site writes_an_image times_differ checkout
              _ _ _ H0 H1)
    as (fs1 & fs2 & Hmk & Hpy & Hcopy & _).
  assert (fs2 = exported) as ->.
  { unfold exported. unfold writes_an_image in Hpy at 1.
    injection Hpy as <-. rewrite Hmk. reflexivity. }
  assert (H3 : exported !! ((OUT_DIR site ++ ["BearImages"]) ++ ["a.png"])
               = Some (File "PNG-bytes")) by (vm_compute; reflexivity).
  assert (H4 : exported !! ((PUBLIC_DIR site ++ ["BearImages"]) ++ ["a.png"]) = None)
    by (vm_compute; reflexivity).
  pose proof (Hcopy ["a.png"] _ H3) as Hpublished.
  rewrite H4 in Hpublished. exact Hpublished.
Defined.

(** X11. A [mkdir -p] that fails is the end of the run: its status is
    1, the script exits with 1 right there, and nothing that follows
    it in the script (the exporter check, the exporter, [rsync]) is
    attempted afterwards. *)
Theorem mkdir_failure_is_final
    (ROOT_DIR : path) (python3 : path → path → path → FS → nat * FS)
    (same_mtime : path → path → bool) (fs : FS)
    (dirs : list path) (st : nat) :
  st ≠ 0 →
  Mkdir dirs st ∈ trace (invoke (run_bear_export ROOT_DIR python3 same_mtime) fs) →
  st = 1 ∧
  exit_code (invoke (run_bear_export ROOT_DIR python3 same_mtime) fs) = 1 ∧
  last (trace (invoke (run_bear_export ROOT_DIR python3 same_mtime) fs)) = Some (Mkdir dirs st) ∧
  (∀ s d st', Rsync s d st' ∉ trace (invoke (run_bear_export ROOT_DIR python3 same_mtime) fs)).
Proof.
  intros Hne.
  unfold invoke, run_bear_export, asset_relay, mkdir, run_python3, rsync,
    test_file, test_directory, echo, emit, exit, errexit, mbind, mret,
    sh_bind, sh_ret.
  destruct (mkdir_p _ fs) as [st1 fs1] eqn:Hmk1.
  pose proof (mkdir_p_status _ _ _ _ Hmk1) as Hst1.
  destruct (succeeded st1) eqn:Hs1; reduce.
  { apply succeeded_true in Hs1. subst st1.
    destruct (test_f fs1 _); reduce; [| by_position].
    destruct (python3 _ _ _ fs1) as [st2 fs2].
    destruct (succeeded st2); reduce; [| by_position].
    destruct (test_d fs2 _); reduce; [| by_position].
    destruct (mkdir_p _ fs2) as [st3 fs3] eqn:Hmk3.
    pose proof (mkdir_p_status _ _ _ _ Hmk3) as Hst3.
    destruct (succeeded st3) eqn:Hs3; reduce.
    - apply succeeded_true in Hs3. subst st3.
      destruct (rsync_r _ _ _ fs3) as [st4 fs4].
      destruct (succeeded st4); reduce; by_position.
    - apply succeeded_false in Hs3.
      intros Hin. rewrite ?elem_of_cons, elem_of_nil in Hin.
      destruct_or! Hin; simplify_eq.
      destruct Hst3 as [Hz | Ho]; [congruence |]. subst.
      repeat split. intros s d st' Hp. by_position. }
  apply succeeded_false in Hs1.
  intros Hin. rewrite ?elem_of_cons, elem_of_nil in Hin.
  destruct_or! Hin; simplify_eq.
  destruct Hst1 as [Hz | Ho]; [congruence |]. subst.
  repeat split. intros s d st' Hp. by_position.
Qed.

Lemma mkdir_failure_is_final_witness :
  Mkdir [PUBLIC_DIR site ++ ["BearImages"]] 1
    ∈ trace (invoke (run_bear_export site writes_nothing times_differ) public_images_is_a_file) ∧
  exit_code (invoke (run_bear_export site writes_nothing times_differ) public_images_is_a_file) = 1.
Proof.
  assert (H : Mkdir [PUBLIC_DIR site ++ ["BearImages"]] 1
                ∈ trace (invoke (run_bear_export site writes_nothing times_differ)
                                public_images_is_a_file)).
  { apply (bool_decide_unpack _). vm_compute. exact I. }
  split; [exact H |].
  exact (proj1 (proj2 (mkdir_failure_is_final site writes_nothing times_differ
                         public_images_is_a_file _ 1 ltac:(discriminate) H))).
Defined.

End ExporterMore.

(** * Further properties of the capture listener *)

Module ListenerMore.
Import Listener ListenerFacts Readings.

(** X12. However the record names fall, no response is lost: as long
    as every write succeeds, N requests give the four effects of the
    handler N times over, in the order of arrival; every request gets
    status 200 and the body "ok", and the listener keeps running. *)
Theorem every_request_is_answered
    (debugDir : string) (existing : gmap string string) (arrivals : list arrival) :
  Forall (λ a, write_fails a = false) arrivals →
  effects (serve debugDir arrivals (started existing)) =
    effects (started existing) ++ flat_map (handled debugDir) arrivals ∧
  answered (effects (serve debugDir arrivals (started existing)))
    = map (λ a, (req a, 200)) arrivals ∧
  bodies (effects (serve debugDir arrivals (started existing)))
    = map (λ a, (req a, "ok")) arrivals ∧
  running (serve debugDir arrivals (started existing)) = true.
Proof.
  intros Hok.
  rewrite (serve_written debugDir arrivals (started existing) eq_refl Hok).
  cbn [files effects running started].
  split; [done |]. unfold answered, bodies. rewrite !omap_app.
  split; [apply answered_handled | split; [apply bodies_handled | done]].
Qed.

Lemma every_request_is_answered_witness :
  answered (effects (serve debug same_millisecond (started ∅)))
    = map (λ a, (req a, 200)) same_millisecond.
Proof.
  assert (Hok : Forall (λ a, write_fails a = false) same_millisecond).
  { apply (bool_decide_unpack _). vm_compute. exact I. }
  exact (proj1 (proj2 (every_request_is_answered debug ∅ same_millisecond Hok))).
Defined.

Lemma last_writer_snoc (k : string) (l : list arrival) (a : arrival) :
  last_writer k (l ++ [a]) =
  if decide (record_name (at_time a) (req a) = k) then Some a else last_writer k l.
Proof.
  unfold last_writer. rewrite filter_app, filter_cons, filter_nil.
  case_decide as Hk.
  - apply last_snoc.
  - by rewrite app_nil_r.
Qed.

(** X13. The last write wins, and nothing else is touched: as long as
    every write succeeds, at the end a name of the debug directory
    holds the record of the last request that was written under it,
    and a name no request was written under holds what it held before
    (or nothing). *)
Theorem last_write_wins
    (debugDir : string) (existing : gmap string string) (arrivals : list arrival)
    (k : string) :
  Forall (λ a, write_fails a = false) arrivals →
  files (serve debugDir arrivals (started existing)) !! k =
  match last_writer k arrivals with
  | Some a => Some (record_payload (req a))
  | None => existing !! k
  end.
Proof.
  intros Hok.
  rewrite (serve_written debugDir arrivals (started existing) eq_refl Hok).
  cbn [files started]. clear Hok.
  induction arrivals as [| a l IH] using rev_ind; [done |].
  rewrite foldl_snoc, last_writer_snoc. unfold write_record at 1.
  case_decide as Hk.
  - subst k. apply lookup_insert_eq.
  - by rewrite lookup_insert_ne.
Qed.

Lemma last_write_wins_witness :
  files (serve debug same_millisecond (started ∅))
    !! "2026-02-03T12-00-00-007Z-POST.log"
  = Some (record_payload (post "/second" ["2"])).
Proof.
  assert (Hok : Forall (λ a, write_fails a = false) same_millisecond).
  { apply (bool_decide_unpack _). vm_compute. exact I. }
  exact (last_write_wins debug ∅ same_millisecond _ Hok).
Defined.

(** X14. The record does not depend on how the body was cut into
    chunks: two requests with the same method, url and headers whose
    chunks concatenate to the same bytes get the same record, under the
    same name. *)
Theorem record_ignores_chunking (r1 r2 : request) (t : civil_time) :
  method r1 = method r2 → url r1 = url r2 → headers r1 = headers r2 →
  String.concat "" (data r1) = String.concat "" (data r2) →
  record_payload r1 = record_payload r2 ∧ record_name t r1 = record_name t r2.
Proof.
  intros Hm Hu Hh Hbody. unfold record_payload, record_name, body_of.
  by rewrite !buffered, Hm, Hu, Hh, Hbody.
Qed.

Lemma record_ignores_chunking_witness :
  record_payload (post "/cb" ["{"; "}"]) = record_payload (post "/cb" ["{}"]).
Proof.
  exact (proj1 (record_ignores_chunking (post "/cb" ["{"; "}"]) (post "/cb" ["{}"])
                  noon eq_refl eq_refl eq_refl eq_refl)).
Defined.

(** X15. What [replace(/[:.]/g, '-')] returns has the length of its
    argument and holds neither a colon nor a dot; applied to an ISO
    timestamp it gives 24 characters. *)
Theorem stamp_has_no_colon_or_dot (s : string) :
  String.length (replace_colon_dot s) = String.length s ∧
  (∀ c, c ∈ list_ascii_of_string (replace_colon_dot s) →
        c ≠ ":"%char ∧ c ≠ "."%char) ∧
  (∀ t, s = toISOString t → String.length (replace_colon_dot s) = 24).
Proof.
  split; [| split].
  - induction s as [| c s IH]; cbn [replace_colon_dot String.length]; [done |].
    by rewrite IH.
  - induction s as [| c s IH]; cbn [replace_colon_dot list_ascii_of_string];
      intros c' Hin.
    + by apply elem_of_nil in Hin.
    + apply elem_of_cons in Hin as [-> | Hin]; [| by apply IH].
      destruct (Ascii.eqb c ":") eqn:H1; [done |].
      destruct (Ascii.eqb c ".") eqn:H2; [done |].
      apply Ascii.eqb_neq in H1, H2. done.
  - intros t ->. apply stamp_length.
Qed.

(** X16. For calendar times in years 0000 to 9999, two records get the
    same file name exactly when they were taken in the same millisecond
    from requests with the same method; url, headers and body play no
    part in the name. *)
Theorem record_name_iff (t1 t2 : civil_time) (r1 r2 : request) :
  well_formed_time t1 → well_formed_time t2 →
  (record_name t1 r1 = record_name t2 r2 ↔ t1 = t2 ∧ method r1 = method r2).
Proof.
  intros Hw1 Hw2. split.
  - by apply record_name_inj.
  - intros [-> Hm]. unfold record_name. by rewrite Hm.
Qed.

Lemma record_name_iff_witness :
  record_name noon (post "/first" ["1"]) = record_name noon (post "/second" ["2"]).
Proof.
  assert (Hw : well_formed_time noon).
  { apply (bool_decide_unpack _). vm_compute. exact I. }
  exact (proj2 (record_name_iff noon noon (post "/first" ["1"]) (post "/second" ["2"])
                  Hw Hw) (conj eq_refl eq_refl)).
Defined.

End ListenerMore.

(** * Properties of the Bear sync script *)

Module SyncBearFacts.
Import Shell SyncBear ShellFacts.

(** X17. The script runs at most one command, the one that asks Bear
    to open the tag "public"; it runs it exactly when the content
    directory could be made, and then in this order: the directory is
    made, the headline is printed, the command itself is printed, the
    command is executed; whatever follows executes nothing.  When the
    directory cannot be made the run is the failed [mkdirSync] and the
    uncaught exception. *)
Theorem sync_bear_runs_only_open_tag
    (outputDir : string) (mkdir_fails : bool) (child : string → nat * string) :
  executed (effects (sync_bear outputDir mkdir_fails child)) =
    (if mkdir_fails then [] else [(open_tag, (child open_tag).1)]) ∧
  (if mkdir_fails
   then effects (sync_bear outputDir mkdir_fails child) =
          [MkdirSync outputDir false; Uncaught]
   else ∃ rest,
          effects (sync_bear outputDir mkdir_fails child) =
            [ MkdirSync outputDir true;
              ConsoleLog header;
              ConsoleLog ("$ " +:+ open_tag);
              ExecSync open_tag (child open_tag).1 ] ++ rest ∧
          executed rest = []).
Proof.
  unfold sync_bear, run. destruct mkdir_fails; [done |].
  destruct (succeeded (child open_tag).1); (split; [done |]); by eexists.
Qed.

(** X18. The status is 0 exactly when the directory was made and the
    command returned 0; then the seven lines of advice are printed
    after the headline and the command.  Otherwise the status is 1, the
    run ends with the uncaught exception, and none of the advice is
    printed. *)
Theorem sync_bear_status
    (outputDir : string) (mkdir_fails : bool) (child : string → nat * string) :
  (exit_code (sync_bear outputDir mkdir_fails child) = 0 ↔
   mkdir_fails = false ∧ (child open_tag).1 = 0) ∧
  (exit_code (sync_bear outputDir mkdir_fails child) = 0 →
   printed (effects (sync_bear outputDir mkdir_fails child)) =
     [header; "$ " +:+ open_tag] ++ advice ∧
   Uncaught ∉ effects (sync_bear outputDir mkdir_fails child)) ∧
  (exit_code (sync_bear outputDir mkdir_fails child) ≠ 0 →
   exit_code (sync_bear outputDir mkdir_fails child) = 1 ∧
   last (effects (sync_bear outputDir mkdir_fails child)) = Some Uncaught ∧
   ∀ l, l ∈ advice → l ∉ printed (effects (sync_bear outputDir mkdir_fails child))).
Proof.
  unfold sync_bear, run. destruct mkdir_fails.
  - simpl. split; [split; [done | by intros [? _]] |].
    split; [done |]. intros _. repeat split.
    intros l _ Hin. by apply elem_of_nil in Hin.
  - destruct (succeeded (child open_tag).1) eqn:Hst.
    + apply succeeded_true in Hst. simpl.
      split; [by split |]. split; [| done]. intros _. split; [done |].
      intros Hin. apply list_elem_of_In in Hin. simpl in Hin.
      destruct_or!; discriminate.
    + apply succeeded_false in Hst. simpl.
      split; [split; [done | by intros [_ ?]] |].
      split; [done |]. intros _. repeat split.
      intros l Hl Hin. apply list_elem_of_In in Hl, Hin.
      unfold advice in Hl. simpl in Hl, Hin.
      destruct Hin as [<- | [<- | []]]; destruct_or!; try discriminate; done.
Qed.

(** X19. What the command prints is never used: two children that end
    with the same status give the same run, whatever they print. *)
Theorem sync_bear_ignores_output
    (outputDir : string) (mkdir_fails : bool) (child1 child2 : string → nat * string) :
  (child1 open_tag).1 = (child2 open_tag).1 →
  sync_bear outputDir mkdir_fails child1 = sync_bear outputDir mkdir_fails child2.
Proof.
  intros Hst. unfold sync_bear, run. rewrite Hst.
  destruct mkdir_fails; [done |].
  by destruct (succeeded (child2 open_tag).1).
Qed.

Lemma sync_bear_ignores_output_witness :
  sync_bear "notes" false (λ _, (0, "bear://x-callback-url/open-tag?name=public"))
  = sync_bear "notes" false (λ _, (0, "")).
Proof.
  exact (sync_bear_ignores_output "notes" false
           (λ _, (0, "bear://x-callback-url/open-tag?name=public"))
           (λ _, (0, "")) eq_refl).
Defined.

End SyncBearFacts.

(** * The stamp of the commit message *)

Module StampFacts.
Import ListenerFacts.

(** X20. For calendar times in years 0000 to 9999, what
    [date +"%Y-%m-%d %H:%M:%S"] prints has 19 characters, and two
    readings are printed alike exactly when they agree to the second:
    the commit message tells the second of the run and nothing
    finer. *)
Theorem commit_stamp_to_the_second (t1 t2 : civil_time) :
  well_formed_time t1 → well_formed_time t2 →
  String.length (strftime "%Y-%m-%d %H:%M:%S" t1) = 19 ∧
  (strftime "%Y-%m-%d %H:%M:%S" t1 = strftime "%Y-%m-%d %H:%M:%S" t2 ↔
   year t1 = year t2 ∧ month t1 = month t2 ∧ day t1 = day t2 ∧
   hour t1 = hour t2 ∧ minute t1 = minute t2 ∧ second t1 = second t2).
Proof.
  intros (Hy1 & Hm1 & Hd1 & Hh1 & Hi1 & Hs1 & _) (Hy2 & Hm2 & Hd2 & Hh2 & Hi2 & Hs2 & _).
  change (strftime "%Y-%m-%d %H:%M:%S" t1) with (Orchestrator.YmdHMS t1).
  change (strftime "%Y-%m-%d %H:%M:%S" t2) with (Orchestrator.YmdHMS t2).
  unfold Orchestrator.YmdHMS. split.
  - rewrite !append_length, !digits_length. reflexivity.
  - split.
    + intros H.
      repeat (apply append_inj_l in H as [? H];
              [| by rewrite !digits_length]; try apply separator_inj in H).
      repeat split;
        match goal with
        | H : digits ?w ?a = digits ?w ?b |- ?a = ?b =>
            apply (digits_inj w a b); [| | exact H]
        end;
        first [ change (10 ^ 2) with 100; lia
              | change (10 ^ 4) with (100 * 100); lia ].
    + intros (-> & -> & -> & -> & -> & ->). reflexivity.
Qed.

Lemma commit_stamp_to_the_second_witness :
  String.length (strftime "%Y-%m-%d %H:%M:%S" Orchestrator.a_sunday) = 19.
Proof.
  assert (Hw : well_formed_time Orchestrator.a_sunday).
  { apply (bool_decide_unpack _). vm_compute. exact I. }
  exact (proj1 (commit_stamp_to_the_second Orchestrator.a_sunday
                  Orchestrator.a_sunday Hw Hw)).
Defined.

End StampFacts.
